(** * go-hyperliquid: the WebSocket client (subscription registry, request
    correlation, connection lifecycle)

    A shallow embedding of [WebSocketAPI] (package hyperliquid) and of the
    [Subscription] descriptor of ws_types.go.  The Go struct becomes a
    record, its two maps become [gmap]s, the response channels live in an
    explicit store because a blocked [Post] and the table alias the same
    channel, and every result the environment decides (dialling, writing,
    closing, reading, the iteration order of a Go map, the case a [select]
    takes) is an explicit argument.  Each operation is modelled as it runs
    when no other goroutine interleaves inside it.  Two places where the
    code lets others in are separate steps: the blocking part of [Post],
    so that other operations can run while a request is outstanding, and
    the send of the reader on a response channel, which happens after the
    lock on the table has been released. *)

From Stdlib Require Import ZArith Lia Ascii.
From Stdlib Require QArith.
From stdpp Require Import base option list gmap strings fin_maps.

Local Open Scope Z_scope.
Local Set Warnings "-register-all".

(** ** Values *)

(** A parsed JSON document.  A number is the [float64] the decoder makes
    of it, given by the rational it denotes.  Object members are kept in
    document order, repeated names included. *)
Inductive json : Type :=
| JNull
| JBool (b : bool)
| JNumber (f : QArith_base.Q)
| JString (s : string)
| JArray (items : list json)
| JObject (members : list (string * json)).

(** Go errors are represented by their message. *)
Definition error := string.

(** An [interface{}] travelling through a response channel: either a value
    whose dynamic type implements [error], or a decoded payload.  The nil
    interface is the decoded JSON null. *)
Inductive value : Type :=
| VError (e : error)
| VData (j : json).

Definition nil_value : value := VData JNull.

(** Indexing a decoded [map[string]interface{}]: when a member name is
    repeated in the document the decoder keeps the last one. *)
Fixpoint obj_get (k : string) (members : list (string * json)) : option json :=
  match members with
  | [] => None
  | (k', v) :: rest =>
      match obj_get k rest with
      | Some w => Some w
      | None => if String.eqb k k' then Some v else None
      end
  end.

(** [m[k].(string)] on a possibly nil map. *)
Definition get_string (k : string) (m : option (list (string * json))) : option string :=
  match m with
  | Some members =>
      match obj_get k members with
      | Some (JString s) => Some s
      | _ => None
      end
  | None => None
  end.

(** [fmt.Sprintf("%s-%s", a, b)] *)
Definition Sprintf_dash (a b : string) : string := a +:+ "-" +:+ b.

(** ** ws_types.go *)

Record Subscription : Type := {
  Type_ : string;
  User : string;
  Coin : string;
  Interval : string;
  NSigFigs : Z;
  Mantissa : Z;
  AggregateByTime : bool;
  Dex : string
}.

Record PostRequest : Type := {
  req_Type : string;
  req_Payload : json
}.

(** The three control messages the client writes, and the close frame. *)
Inductive OutMessage : Type :=
| SubscriptionMessage (Method : string) (subscription : Subscription)
| UnsubscriptionMessage (Method : string) (subscription : Subscription)
| PostMessage (Method : string) (ID : Z) (Request : PostRequest)
| CloseMessage.

Record WsResponse : Type := {
  Channel : string;
  Data : json
}.

(** ** Channels *)

(** A Go channel: its buffer, its capacity and whether it was closed. *)
Record Chan : Type := {
  buf : list value;
  cap : nat;
  closed : bool
}.

Definition make_chan (n : nat) : Chan := {| buf := []; cap := n; closed := false |}.

Inductive SendResult : Type :=
| Sent (c : Chan)
| SendBlocks
| SendPanics.

(** [ch <- v] with no receiver parked on the channel. *)
Definition chan_send (v : value) (c : Chan) : SendResult :=
  if closed c then SendPanics
  else if (length (buf c) <? cap c)%nat
       then Sent {| buf := buf c ++ [v]; cap := cap c; closed := false |}
       else SendBlocks.

(** [<-ch]: the oldest buffered value; the zero value once the channel is
    closed and drained; [None] when the receive cannot proceed. *)
Definition chan_recv (c : Chan) : option (value * Chan) :=
  match buf c with
  | v :: rest => Some (v, {| buf := rest; cap := cap c; closed := closed c |})
  | [] => if closed c then Some (nil_value, c) else None
  end.

(** [close(ch)]; closing a closed channel panics ([None]). *)
Definition chan_close (c : Chan) : option Chan :=
  if closed c then None
  else Some {| buf := buf c; cap := cap c; closed := true |}.

(** ** The client *)

Definition Conn := nat.
Definition ChanRef := nat.

(** A registered callback.  Callbacks are closures supplied by the caller;
    the client only stores and calls them, so they are represented by an
    identity. *)
Definition Callback := nat.

(** The fields of the Go struct, followed by what the runtime holds for
    it: the store of response channels, the number of [readLoop]
    goroutines started and not yet returned, and the frames handed to the
    connection. *)
Record WebSocketAPI : Type := {
  conn : option Conn;
  wsURL : string;
  connected : bool;
  handlers : gmap string Callback;
  postHandlers : gmap Z ChanRef;
  idCounter : Z;
  done_closed : bool;
  chans : gmap ChanRef Chan;
  readers : nat;
  sent : list OutMessage
}.

(** [atomic.Int32]: addition wraps around. *)
Definition wrap32 (z : Z) : Z := (z + 2 ^ 31) mod 2 ^ 32 - 2 ^ 31.

Definition NewWebSocketAPI (MAINNET_WS_URL TESTNET_WS_URL : string) (isMainnet : bool)
  : WebSocketAPI :=
  {| conn := None;
     wsURL := if isMainnet then MAINNET_WS_URL else TESTNET_WS_URL;
     connected := false;
     handlers := ∅;
     postHandlers := ∅;
     idCounter := 0;
     done_closed := false;
     chans := ∅;
     readers := 0;
     sent := [] |}.

(** Field updates. *)
Definition set_connected (b : bool) (api : WebSocketAPI) : WebSocketAPI :=
  {| conn := conn api; wsURL := wsURL api; connected := b;
     handlers := handlers api; postHandlers := postHandlers api;
     idCounter := idCounter api; done_closed := done_closed api;
     chans := chans api; readers := readers api; sent := sent api |}.

Definition set_handlers (h : gmap string Callback) (api : WebSocketAPI) : WebSocketAPI :=
  {| conn := conn api; wsURL := wsURL api; connected := connected api;
     handlers := h; postHandlers := postHandlers api;
     idCounter := idCounter api; done_closed := done_closed api;
     chans := chans api; readers := readers api; sent := sent api |}.

Definition set_postHandlers (p : gmap Z ChanRef) (api : WebSocketAPI) : WebSocketAPI :=
  {| conn := conn api; wsURL := wsURL api; connected := connected api;
     handlers := handlers api; postHandlers := p;
     idCounter := idCounter api; done_closed := done_closed api;
     chans := chans api; readers := readers api; sent := sent api |}.

Definition set_idCounter (n : Z) (api : WebSocketAPI) : WebSocketAPI :=
  {| conn := conn api; wsURL := wsURL api; connected := connected api;
     handlers := handlers api; postHandlers := postHandlers api;
     idCounter := n; done_closed := done_closed api;
     chans := chans api; readers := readers api; sent := sent api |}.

Definition set_done_closed (b : bool) (api : WebSocketAPI) : WebSocketAPI :=
  {| conn := conn api; wsURL := wsURL api; connected := connected api;
     handlers := handlers api; postHandlers := postHandlers api;
     idCounter := idCounter api; done_closed := b;
     chans := chans api; readers := readers api; sent := sent api |}.

Definition set_chans (h : gmap ChanRef Chan) (api : WebSocketAPI) : WebSocketAPI :=
  {| conn := conn api; wsURL := wsURL api; connected := connected api;
     handlers := handlers api; postHandlers := postHandlers api;
     idCounter := idCounter api; done_closed := done_closed api;
     chans := h; readers := readers api; sent := sent api |}.

Definition set_readers (n : nat) (api : WebSocketAPI) : WebSocketAPI :=
  {| conn := conn api; wsURL := wsURL api; connected := connected api;
     handlers := handlers api; postHandlers := postHandlers api;
     idCounter := idCounter api; done_closed := done_closed api;
     chans := chans api; readers := n; sent := sent api |}.

Definition set_sent (l : list OutMessage) (api : WebSocketAPI) : WebSocketAPI :=
  {| conn := conn api; wsURL := wsURL api; connected := connected api;
     handlers := handlers api; postHandlers := postHandlers api;
     idCounter := idCounter api; done_closed := done_closed api;
     chans := chans api; readers := readers api; sent := l |}.

Definition set_conn (c : option Conn) (api : WebSocketAPI) : WebSocketAPI :=
  {| conn := c; wsURL := wsURL api; connected := connected api;
     handlers := handlers api; postHandlers := postHandlers api;
     idCounter := idCounter api; done_closed := done_closed api;
     chans := chans api; readers := readers api; sent := sent api |}.

(** How a call can end: it returns, it panics, or it cannot proceed in
    the current state and stays parked. *)
Inductive Outcome (A : Type) : Type :=
| Returns (api : WebSocketAPI) (r : A)
| Panics (reason : string)
| Blocks.
Arguments Returns {A} api r.
Arguments Panics {A} reason.
Arguments Blocks {A}.

(** ** Connection lifecycle *)

Inductive DialResult : Type :=
| DialOk (c : Conn)
| DialErr (e : error).

(** [Connect]: [dial] is what [websocket.DefaultDialer.Dial] answers
    if it is called. *)
Definition Connect (dial : DialResult) (api : WebSocketAPI)
  : WebSocketAPI * option error :=
  if connected api then (api, None)
  else
    match dial with
    | DialErr e => (api, Some e)
    | DialOk c =>
        let api := set_conn (Some c) api in
        let api := set_connected true api in
        let api := set_done_closed false api in
        let api := set_readers (S (readers api)) api in
        (api, None)
    end.

(** The loop of [Disconnect] over the correlation table: every channel is
    closed and its entry deleted.  [None] is a panic (closing a channel
    that is nil or already closed). *)
Definition close_entry (_ : Z) (ch : ChanRef) (acc : option (gmap ChanRef Chan))
  : option (gmap ChanRef Chan) :=
  match acc with
  | None => None
  | Some store =>
      match store !! ch with
      | None => None
      | Some c =>
          match chan_close c with
          | None => None
          | Some c' => Some (<[ch := c']> store)
          end
      end
  end.

Definition close_all (table : gmap Z ChanRef) (store : gmap ChanRef Chan)
  : option (gmap ChanRef Chan) :=
  map_fold close_entry (Some store) table.

(** [Disconnect]: [write_r] and [close_r] are the results of writing the
    close frame and of closing the transport. *)
Definition Disconnect (write_r close_r : option error) (api : WebSocketAPI)
  : Outcome (option error) :=
  if negb (connected api) then Returns api None
  else if done_closed api then Panics "close of closed channel"
  else
    let api := set_done_closed true api in
    let api := set_handlers ∅ api in
    match close_all (postHandlers api) (chans api) with
    | None => Panics "close of nil or closed channel"
    | Some store =>
        let api := set_chans store api in
        let api := set_postHandlers ∅ api in
        match conn api with
        | None => Panics "nil pointer dereference"
        | Some _ =>
            let api :=
              match write_r with
              | None => set_sent (sent api ++ [CloseMessage]) api
              | Some _ => api
              end in
            match close_r with
            | Some e => Returns api (Some e)
            | None => Returns (set_connected false api) None
            end
        end
    end.

Definition IsConnected (api : WebSocketAPI) : bool := connected api.

(** [sendMessage]: [marshal_r] is the result of [json.Marshal] on the
    message, [write_r] that of [WriteMessage]. *)
Definition sendMessage (message : OutMessage) (marshal_r write_r : option error)
    (api : WebSocketAPI) : WebSocketAPI * option error :=
  if negb (connected api) then (api, Some "not connected")
  else
    match marshal_r with
    | Some e => (api, Some e)
    | None =>
        match write_r with
        | Some e => (api, Some e)
        | None => (set_sent (sent api ++ [message]) api, None)
        end
    end.

(** ** Subscriptions *)

(** The key computed in the body of [Subscribe]. *)
Definition Subscribe_channelKey (subscription : Subscription) : string :=
  let channelKey := Type_ subscription in
  let channelKey :=
    if negb (String.eqb (User subscription) "")
    then Sprintf_dash channelKey (User subscription) else channelKey in
  let channelKey :=
    if negb (String.eqb (Coin subscription) "")
    then Sprintf_dash channelKey (Coin subscription) else channelKey in
  let channelKey :=
    if negb (String.eqb (Interval subscription) "")
    then Sprintf_dash channelKey (Interval subscription) else channelKey in
  channelKey.

(** A [Subscription] has only fields that always marshal, so the send of
    a control message can fail only in the write. *)
Definition Subscribe (dial : DialResult) (write_r : option error)
    (subscription : Subscription) (callback : Callback) (api : WebSocketAPI)
  : WebSocketAPI * option error :=
  let '(api, err) :=
    if negb (IsConnected api) then Connect dial api else (api, None) in
  match err with
  | Some e => (api, Some e)
  | None =>
      let channelKey := Subscribe_channelKey subscription in
      let api := set_handlers (<[channelKey := callback]> (handlers api)) api in
      let subMsg := SubscriptionMessage "subscribe" subscription in
      sendMessage subMsg None write_r api
  end.

(** The key computed in the body of [Unsubscribe]. *)
Definition Unsubscribe_channelKey (subscription : Subscription) : string :=
  let channelKey := Type_ subscription in
  let channelKey :=
    if negb (String.eqb (User subscription) "")
    then Sprintf_dash channelKey (User subscription) else channelKey in
  let channelKey :=
    if negb (String.eqb (Coin subscription) "")
    then Sprintf_dash channelKey (Coin subscription) else channelKey in
  let channelKey :=
    if negb (String.eqb (Interval subscription) "")
    then Sprintf_dash channelKey (Interval subscription) else channelKey in
  channelKey.

Definition Unsubscribe (write_r : option error) (subscription : Subscription)
    (api : WebSocketAPI) : WebSocketAPI * option error :=
  if negb (IsConnected api) then (api, Some "not connected")
  else
    let channelKey := Unsubscribe_channelKey subscription in
    let api := set_handlers (delete channelKey (handlers api)) api in
    let unsubMsg := UnsubscriptionMessage "unsubscribe" subscription in
    sendMessage unsubMsg None write_r api.

(** ** Post *)

Definition Second : Z := 1000000000.
Definition postTimeout : Z := 15 * Second.

(** A reference not yet used by the store, for [make(chan ...)]. *)
Definition fresh_ref (store : gmap ChanRef Chan) : ChanRef :=
  fresh (dom store).

(** [Post] up to its [select]: either it has returned an error (the
    deferred delete has run), or the caller is parked on [responseChan]. *)
Inductive PostIssue : Type :=
| PostFailed (api : WebSocketAPI) (err : error)
| PostWaiting (api : WebSocketAPI) (id : Z) (responseChan : ChanRef).

Definition Post_issue (dial : DialResult) (marshal_r write_r : option error)
    (requestType : string) (payload : json) (api : WebSocketAPI) : PostIssue :=
  let '(api, err) :=
    if negb (IsConnected api) then Connect dial api else (api, None) in
  match err with
  | Some e => PostFailed api e
  | None =>
      let id := wrap32 (idCounter api + 1) in
      let api := set_idCounter id api in
      let responseChan := fresh_ref (chans api) in
      let api := set_chans (<[responseChan := make_chan 1]> (chans api)) api in
      let api := set_postHandlers (<[id := responseChan]> (postHandlers api)) api in
      let postMsg :=
        PostMessage "post" id {| req_Type := requestType; req_Payload := payload |} in
      let '(api, err) := sendMessage postMsg marshal_r write_r api in
      match err with
      | Some e => PostFailed (set_postHandlers (delete id (postHandlers api)) api) e
      | None => PostWaiting api id responseChan
      end
  end.

(** The case the [select] of [Post] takes. *)
Inductive SelectCase : Type :=
| RecvResponse
| TimerFired.

(** The [select] of [Post] and its return, [elapsed] nanoseconds after
    the timer was armed.  A case that is not ready cannot be taken.  The
    deferred delete runs on both ways out. *)
Definition Post_select (id : Z) (responseChan : ChanRef) (elapsed : Z)
    (pick : SelectCase) (api : WebSocketAPI) : Outcome (value * option error) :=
  match pick with
  | RecvResponse =>
      match chans api !! responseChan with
      | None => Blocks
      | Some c =>
          match chan_recv c with
          | None => Blocks
          | Some (response, c') =>
              let api := set_chans (<[responseChan := c']> (chans api)) api in
              let api := set_postHandlers (delete id (postHandlers api)) api in
              match response with
              | VError err => Returns api (nil_value, Some err)
              | VData _ => Returns api (response, None)
              end
          end
      end
  | TimerFired =>
      if postTimeout <=? elapsed
      then Returns (set_postHandlers (delete id (postHandlers api)) api)
                   (nil_value, Some "request timeout")
      else Blocks
  end.

(** ** The reader *)

(** What a callback is called with: the [[]WsOrder] decoded from the
    payload on the order-updates path, the payload itself otherwise. *)
Inductive Arg : Type :=
| ArgOrders (data : json)
| ArgData (data : json).

Definition Call : Type := Callback * Arg.

(** [int(f)] for a [float64]: truncation toward zero.  Outside the range
    of [int] the language leaves the result to the implementation; amd64
    gives the least [int], and no implementation gives an [int32], which
    is all the table lookup depends on. *)
Definition Go_int (f : QArith_base.Q) : Z :=
  let t := Z.quot (QArith_base.Qnum f) (Z.pos (QArith_base.Qden f)) in
  if (- 2 ^ 63 <=? t) && (t <? 2 ^ 63) then t else - 2 ^ 63.

(** The decoder matches a member name with a struct field without regard
    to the case of ASCII letters (the names "channel" and "data" have no
    letter with a further Unicode variant). *)
Definition to_lower (a : ascii) : ascii :=
  let n := N_of_ascii a in
  if (65 <=? n)%N && (n <=? 90)%N then ascii_of_N (n + 32) else a.

Fixpoint fold_name (s : string) : string :=
  match s with
  | EmptyString => EmptyString
  | String a rest => String (to_lower a) (fold_name rest)
  end.

Definition names_field (field key : string) : bool :=
  String.eqb (fold_name key) field.

(** One member of the object stored into the struct: a string sets
    [Channel], a null leaves it, any other value for it is a type error
    (recorded; decoding goes on); any value, null included, sets [Data];
    other members are skipped. *)
Definition store_member (st : WsResponse * bool) (member : string * json)
  : WsResponse * bool :=
  let '(response, ok) := st in
  let '(key, v) := member in
  if names_field "channel" key then
    match v with
    | JString s => ({| Channel := s; Data := Data response |}, ok)
    | JNull => (response, ok)
    | _ => (response, false)
    end
  else if names_field "data" key then
    ({| Channel := Channel response; Data := v |}, ok)
  else (response, ok).

(** [json.Unmarshal(message, &response)] on a parsed document, [None]
    when it returns an error.  The members are stored in document order,
    so of two members for one field the later one counts; a type error
    anywhere fails the frame; a document that is neither an object nor
    null is a type error. *)
Definition unmarshal_WsResponse (doc : json) : option WsResponse :=
  match doc with
  | JNull => Some {| Channel := ""; Data := JNull |}
  | JObject members =>
      let '(response, ok) :=
        fold_left store_member members ({| Channel := ""; Data := JNull |}, true) in
      if ok then Some response else None
  | _ => None
  end.

(** [x.(map[string]interface{})] *)
Definition as_map (x : option json) : option (list (string * json)) :=
  match x with
  | Some (JObject members) => Some members
  | _ => None
  end.

(** The checks of the ["post"] branch before the table is consulted: the
    correlation id [int(id)] and the response object, when the frame has
    them.  The frame is decoded a second time, into a map, whose keys are
    matched exactly. *)
Definition decode_post (doc : json) : option (Z * list (string * json)) :=
  match as_map (Some doc) with
  | None => None
  | Some postResponseData =>
      match as_map (obj_get "data" postResponseData) with
      | None => None
      | Some data =>
          match obj_get "id" data with
          | Some (JNumber id) =>
              match as_map (obj_get "response" data) with
              | None => None
              | Some responseObj => Some (Go_int id, responseObj)
              end
          | _ => None
          end
      end
  end.

(** The value the reader puts on the response channel. *)
Definition post_value (responseObj : list (string * json)) : value :=
  let respType := default "" (get_string "type" (Some responseObj)) in
  if String.eqb respType "error" then
    let errMsg := default "" (get_string "payload" (Some responseObj)) in
    let errMsg := if String.eqb errMsg "" then "unknown error" else errMsg in
    VError errMsg
  else VData (default JNull (obj_get "payload" responseObj)).

(** The part of the ["post"] branch that runs under the read lock: the
    channel registered for the id, with the value to put on it. *)
Definition post_lookup (doc : json) (api : WebSocketAPI) : option (ChanRef * value) :=
  match decode_post doc with
  | None => None
  | Some (id, responseObj) =>
      match postHandlers api !! id with
      | None => None
      | Some ch => Some (ch, post_value responseObj)
      end
  end.

(** The send, which runs after the lock has been released: the reader
    holds the channel, whatever has happened to the table since. *)
Definition post_send (ch : ChanRef) (v : value) (api : WebSocketAPI)
  : Outcome (option Call) :=
  match chans api !! ch with
  | None => Blocks
  | Some c =>
      match chan_send v c with
      | Sent c' => Returns (set_chans (<[ch := c']> (chans api)) api) None
      | SendBlocks => Blocks
      | SendPanics => Panics "send on closed channel"
      end
  end.

(** The ["post"] branch when nothing runs between its two parts. *)
Definition process_post (doc : json) (api : WebSocketAPI) : Outcome (option Call) :=
  match post_lookup doc api with
  | None => Returns api None
  | Some (ch, v) => post_send ch v api
  end.

(** The key a feed message is looked up under. *)
Definition dispatch_channelKey (response : WsResponse) : string :=
  let channelKey := Channel response in
  let dataMap := as_map (Some (Data response)) in
  let channelKey :=
    match get_string "coin" dataMap with
    | Some coin => Sprintf_dash channelKey coin
    | None => channelKey
    end in
  let channelKey :=
    match get_string "user" dataMap with
    | Some user => Sprintf_dash channelKey user
    | None => channelKey
    end in
  channelKey.

Definition prefixToMatch : string := "orderUpdates-".

Definition prefix_matches (hKey : string) : bool :=
  (String.length prefixToMatch <? String.length hKey)%nat
  && String.eqb (String.substring 0 (String.length prefixToMatch) hKey) prefixToMatch.

(** The [range] over the registry with its [break]; [order] is the
    sequence in which the runtime yields the entries. *)
Fixpoint prefix_scan (order : list (string * Callback)) : option Callback :=
  match order with
  | [] => None
  | (hKey, h) :: rest =>
      if prefix_matches hKey then Some h else prefix_scan rest
  end.

(** The [switch] on the channel: only order updates have a typed path. *)
Definition typed_lookup (order : list (string * Callback)) (response : WsResponse)
    (channelKey : string) (api : WebSocketAPI) : option Callback :=
  if String.eqb (Channel response) "orderUpdates" then
    match handlers api !! channelKey with
    | Some handler => Some handler
    | None => prefix_scan order
    end
  else None.

(** [processMessage]: [message] is the parsed frame ([None] when the
    bytes are not JSON); the result is the callback invocation made, if
    any. *)
Definition processMessage (order : list (string * Callback)) (message : option json)
    (api : WebSocketAPI) : Outcome (option Call) :=
  match message with
  | None => Returns api None
  | Some doc =>
      match unmarshal_WsResponse doc with
      | None => Returns api None
      | Some response =>
          if String.eqb (Channel response) "post" then process_post doc api
          else if String.eqb (Channel response) "subscriptionResponse" then Returns api None
          else
            let channelKey := dispatch_channelKey response in
            match typed_lookup order response channelKey api with
            | Some handler => Returns api (Some (handler, ArgOrders (Data response)))
            | None =>
                match handlers api !! channelKey with
                | Some handler => Returns api (Some (handler, ArgData (Data response)))
                | None => Returns api None
                end
            end
      end
  end.

Inductive ReadResult : Type :=
| ReadErr (e : error)
| ReadOk (message : option json).

(** The deferred function of [readLoop]. *)
Definition readLoop_exit (api : WebSocketAPI) : WebSocketAPI :=
  set_readers (Nat.pred (readers api)) (set_connected false api).

Inductive Turn : Type :=
| Continue (call : option Call)
| Return_.

(** One turn of the [for] loop of [readLoop]; [read] is the result of
    [ReadMessage] when the stop signal is not set. *)
Definition readLoop_turn (order : list (string * Callback)) (read : ReadResult)
    (api : WebSocketAPI) : Outcome Turn :=
  if done_closed api then Returns (readLoop_exit api) Return_
  else
    match read with
    | ReadErr _ => Returns (readLoop_exit api) Return_
    | ReadOk message =>
        match processMessage order message api with
        | Returns api call => Returns api (Continue call)
        | Panics reason => Panics reason
        | Blocks => Blocks
        end
    end.

(** ** Reachable states *)

(** One completed operation of a caller, one turn of a reader, or the
    send of a reader that looked its channel up earlier. *)
Inductive step : WebSocketAPI → WebSocketAPI → Prop :=
| step_Connect dial api :
    step api (Connect dial api).1
| step_Disconnect write_r close_r api api' r :
    Disconnect write_r close_r api = Returns api' r → step api api'
| step_Subscribe dial write_r subscription callback api :
    step api (Subscribe dial write_r subscription callback api).1
| step_Unsubscribe write_r subscription api :
    step api (Unsubscribe write_r subscription api).1
| step_Post_failed dial marshal_r write_r requestType payload api api' e :
    Post_issue dial marshal_r write_r requestType payload api = PostFailed api' e →
    step api api'
| step_Post_waiting dial marshal_r write_r requestType payload api api' id ch :
    Post_issue dial marshal_r write_r requestType payload api = PostWaiting api' id ch →
    step api api'
| step_Post_select id ch elapsed pick api api' r :
    Post_select id ch elapsed pick api = Returns api' r → step api api'
| step_readLoop order read api api' t :
    (0 < readers api)%nat →
    order ≡ₚ map_to_list (handlers api) →
    readLoop_turn order read api = Returns api' t → step api api'
| step_post_send ch v api api' call :
    post_send ch v api = Returns api' call → step api api'.

Definition reachable (api : WebSocketAPI) : Prop :=
  ∃ mainnet testnet isMainnet,
    rtc step (NewWebSocketAPI mainnet testnet isMainnet) api.

(** ** The channel key in the words of the specification *)

(** A segment is appended, after a dash, only when the field is
    non-empty. *)
Definition segment (field : string) : string :=
  if decide (field = "") then "" else "-" +:+ field.

Definition spec_channel_key (s : Subscription) : string :=
  Type_ s +:+ segment (User s) +:+ segment (Coin s) +:+ segment (Interval s).

(** ** Predicates and scenarios used in the statements *)

(** The handle is set whenever the flag is. *)
Definition conn_when_connected (api : WebSocketAPI) : Prop :=
  connected api = true → is_Some (conn api).

Definition closed_copy (c : Chan) : Chan :=
  {| buf := buf c; cap := cap c; closed := true |}.

(** The table as [Post] builds it: every entry names an open channel of
    the store, and no channel is registered under two ids. *)
Definition table_ok (table : gmap Z ChanRef) (store : gmap ChanRef Chan) : Prop :=
  (∀ id ch, table !! id = Some ch → ∃ c, store !! ch = Some c ∧ closed c = false)
  ∧ (∀ id1 id2 ch, table !! id1 = Some ch → table !! id2 = Some ch → id1 = id2).

(** The state a call leaves behind and the values it returns. *)
Definition issued (p : PostIssue) : WebSocketAPI :=
  match p with
  | PostFailed api _ => api
  | PostWaiting api _ _ => api
  end.

Definition state_after {A} (o : Outcome A) : option WebSocketAPI :=
  match o with
  | Returns api _ => Some api
  | _ => None
  end.

Definition returned {A} (o : Outcome A) : option A :=
  match o with
  | Returns _ r => Some r
  | _ => None
  end.

(** A connected client on which two [Post] calls are parked. *)
Definition one_parked : PostIssue :=
  Post_issue (DialOk 8%nat) None None "action" JNull
    (Connect (DialOk 7%nat) (NewWebSocketAPI "m" "t" true)).1.

Definition two_parked : PostIssue :=
  Post_issue (DialOk 8%nat) None None "action" JNull (issued one_parked).

(** A string without the separator of the channel keys. *)
Fixpoint no_dash (s : string) : bool :=
  match s with
  | EmptyString => true
  | String a rest => negb (Ascii.eqb a "-"%char) && no_dash rest
  end.

(** ** The rest of the client *)

(** [Endpoint] *)
Definition Endpoint (api : WebSocketAPI) : string := "".

(** The typed helpers.  Each one calls [Subscribe] with a fixed
    descriptor and a closure that decodes the payload before calling the
    caller's function; [callback] stands for that closure. *)
Definition SubscribeToAllMids (dial : DialResult) (write_r : option error)
    (callback : Callback) (api : WebSocketAPI) : WebSocketAPI * option error :=
  Subscribe dial write_r
    {| Type_ := "allMids"; User := ""; Coin := ""; Interval := "";
       NSigFigs := 0; Mantissa := 0; AggregateByTime := false; Dex := "" |}
    callback api.

Definition SubscribeToNotification (dial : DialResult) (write_r : option error)
    (address : string) (callback : Callback) (api : WebSocketAPI)
  : WebSocketAPI * option error :=
  Subscribe dial write_r
    {| Type_ := "notification"; User := address; Coin := ""; Interval := "";
       NSigFigs := 0; Mantissa := 0; AggregateByTime := false; Dex := "" |}
    callback api.

Definition SubscribeToCandle (dial : DialResult) (write_r : option error)
    (coin interval : string) (callback : Callback) (api : WebSocketAPI)
  : WebSocketAPI * option error :=
  Subscribe dial write_r
    {| Type_ := "candle"; User := ""; Coin := coin; Interval := interval;
       NSigFigs := 0; Mantissa := 0; AggregateByTime := false; Dex := "" |}
    callback api.

Definition SubscribeToL2Book (dial : DialResult) (write_r : option error)
    (coin : string) (callback : Callback) (api : WebSocketAPI)
  : WebSocketAPI * option error :=
  Subscribe dial write_r
    {| Type_ := "l2Book"; User := ""; Coin := coin; Interval := "";
       NSigFigs := 0; Mantissa := 0; AggregateByTime := false; Dex := "" |}
    callback api.

Definition SubscribeToTrades (dial : DialResult) (write_r : option error)
    (coin : string) (callback : Callback) (api : WebSocketAPI)
  : WebSocketAPI * option error :=
  Subscribe dial write_r
    {| Type_ := "trades"; User := ""; Coin := coin; Interval := "";
       NSigFigs := 0; Mantissa := 0; AggregateByTime := false; Dex := "" |}
    callback api.

Definition SubscribeToOrderUpdates (dial : DialResult) (write_r : option error)
    (address : string) (callback : Callback) (api : WebSocketAPI)
  : WebSocketAPI * option error :=
  Subscribe dial write_r
    {| Type_ := "orderUpdates"; User := address; Coin := ""; Interval := "";
       NSigFigs := 0; Mantissa := 0; AggregateByTime := false; Dex := "" |}
    callback api.

Definition SubscribeToUserEvents (dial : DialResult) (write_r : option error)
    (address : string) (callback : Callback) (api : WebSocketAPI)
  : WebSocketAPI * option error :=
  Subscribe dial write_r
    {| Type_ := "userEvents"; User := address; Coin := ""; Interval := "";
       NSigFigs := 0; Mantissa := 0; AggregateByTime := false; Dex := "" |}
    callback api.

Definition SubscribeToUserFills (dial : DialResult) (write_r : option error)
    (address : string) (aggregateByTime : bool) (callback : Callback)
    (api : WebSocketAPI) : WebSocketAPI * option error :=
  Subscribe dial write_r
    {| Type_ := "userFills"; User := address; Coin := ""; Interval := "";
       NSigFigs := 0; Mantissa := 0; AggregateByTime := aggregateByTime; Dex := "" |}
    callback api.

Definition SubscribeToUserFundings (dial : DialResult) (write_r : option error)
    (address : string) (callback : Callback) (api : WebSocketAPI)
  : WebSocketAPI * option error :=
  Subscribe dial write_r
    {| Type_ := "userFundings"; User := address; Coin := ""; Interval := "";
       NSigFigs := 0; Mantissa := 0; AggregateByTime := false; Dex := "" |}
    callback api.

Definition SubscribeToUserNonFundingLedgerUpdates (dial : DialResult)
    (write_r : option error) (address : string) (callback : Callback)
    (api : WebSocketAPI) : WebSocketAPI * option error :=
  Subscribe dial write_r
    {| Type_ := "userNonFundingLedgerUpdates"; User := address; Coin := "";
       Interval := ""; NSigFigs := 0; Mantissa := 0; AggregateByTime := false;
       Dex := "" |}
    callback api.

Definition SubscribeToActiveAssetCtx (dial : DialResult) (write_r : option error)
    (coin : string) (callback : Callback) (api : WebSocketAPI)
  : WebSocketAPI * option error :=
  Subscribe dial write_r
    {| Type_ := "activeAssetCtx"; User := ""; Coin := coin; Interval := "";
       NSigFigs := 0; Mantissa := 0; AggregateByTime := false; Dex := "" |}
    callback api.

Definition SubscribeToActiveAssetData (dial : DialResult) (write_r : option error)
    (address coin : string) (callback : Callback) (api : WebSocketAPI)
  : WebSocketAPI * option error :=
  Subscribe dial write_r
    {| Type_ := "activeAssetData"; User := address; Coin := coin; Interval := "";
       NSigFigs := 0; Mantissa := 0; AggregateByTime := false; Dex := "" |}
    callback api.

Definition SubscribeToUserTwapSliceFills (dial : DialResult)
    (write_r : option error) (address : string) (callback : Callback)
    (api : WebSocketAPI) : WebSocketAPI * option error :=
  Subscribe dial write_r
    {| Type_ := "userTwapSliceFills"; User := address; Coin := ""; Interval := "";
       NSigFigs := 0; Mantissa := 0; AggregateByTime := false; Dex := "" |}
    callback api.

Definition SubscribeToUserTwapHistory (dial : DialResult) (write_r : option error)
    (address : string) (callback : Callback) (api : WebSocketAPI)
  : WebSocketAPI * option error :=
  Subscribe dial write_r
    {| Type_ := "userTwapHistory"; User := address; Coin := ""; Interval := "";
       NSigFigs := 0; Mantissa := 0; AggregateByTime := false; Dex := "" |}
    callback api.

Definition SubscribeToBbo (dial : DialResult) (write_r : option error)
    (coin : string) (callback : Callback) (api : WebSocketAPI)
  : WebSocketAPI * option error :=
  Subscribe dial write_r
    {| Type_ := "bbo"; User := ""; Coin := coin; Interval := "";
       NSigFigs := 0; Mantissa := 0; AggregateByTime := false; Dex := "" |}
    callback api.

(** [readLoop] run to its return on the frames the connection yields, one
    entry per call of [ReadMessage], each with the iteration order the
    runtime uses for the registry in that turn.  When the frames are used
    up the reader is parked in [ReadMessage], unless the stop signal is
    already set.  The result lists the callback invocations made. *)
Fixpoint readLoop (inputs : list (list (string * Callback) * ReadResult))
    (api : WebSocketAPI) : Outcome (list Call) :=
  match inputs with
  | [] => if done_closed api then Returns (readLoop_exit api) [] else Blocks
  | (order, read) :: rest =>
      match readLoop_turn order read api with
      | Returns api' Return_ => Returns api' []
      | Returns api' (Continue call) =>
          match readLoop rest api' with
          | Returns api'' calls => Returns api'' (option_list call ++ calls)
          | Panics reason => Panics reason
          | Blocks => Blocks
          end
      | Panics reason => Panics reason
      | Blocks => Blocks
      end
  end.

(** ** Further predicates used in the statements *)

(** The range of [int32]. *)
Definition int32_range (z : Z) : Prop := - 2 ^ 31 ≤ z < 2 ^ 31.

(** The payload field a descriptor field is mirrored by: absent when the
    descriptor field is empty. *)
Definition field_of (f : string) : option string :=
  if decide (f = "") then None else Some f.

(** What [Post] returns for a value received from its channel. *)
Definition Post_result (response : value) : value * option error :=
  match response with
  | VError err => (nil_value, Some err)
  | VData _ => (response, None)
  end.

(** The value appended to a channel buffer. *)
Definition pushed (v : value) (c : Chan) : Chan :=
  {| buf := buf c ++ [v]; cap := cap c; closed := false |}.

(** The state in which [Post] registers its request: the client itself
    when it is connected, the freshly connected client otherwise. *)
Definition ensure_connected (dial : DialResult) (api : WebSocketAPI) : WebSocketAPI :=
  if connected api then api else (Connect dial api).1.

(** The state [Post] is parked in, and the one it returns in when the
    send fails. *)
Definition Post_registered (dial : DialResult) (api : WebSocketAPI) : WebSocketAPI :=
  let a := ensure_connected dial api in
  let id := wrap32 (idCounter a + 1) in
  let a := set_idCounter id a in
  let responseChan := fresh_ref (chans a) in
  let a := set_chans (<[responseChan := make_chan 1]> (chans a)) a in
  set_postHandlers (<[id := responseChan]> (postHandlers a)) a.

(** Every entry of the correlation table names an open channel of its own. *)
Definition table_inv (api : WebSocketAPI) : Prop :=
  table_ok (postHandlers api) (chans api).

(** The state [Disconnect] returns in on a connected client. *)
Definition Disconnected (write_r close_r : option error)
    (store : gmap ChanRef Chan) (api : WebSocketAPI) : WebSocketAPI :=
  let a := set_done_closed true api in
  let a := set_handlers ∅ a in
  let a := set_chans store a in
  let a := set_postHandlers ∅ a in
  let a := match write_r with
           | None => set_sent (sent a ++ [CloseMessage]) a
           | Some _ => a
           end in
  match close_r with
  | Some _ => a
  | None => set_connected false a
  end.

(** A response frame for request [id]. *)
Definition reply (id : Z) (responseObj : list (string * json)) : json :=
  JObject [("channel", JString "post");
           ("data", JObject [("id", JNumber (QArith_base.inject_Z id));
                             ("response", JObject responseObj)])].

(** The helpers that subscribe by coin alone, with their topic. *)
Definition coin_feeds
  : list (string * (DialResult → option error → string → Callback →
                    WebSocketAPI → WebSocketAPI * option error)) :=
  [("l2Book", SubscribeToL2Book); ("trades", SubscribeToTrades);
   ("activeAssetCtx", SubscribeToActiveAssetCtx); ("bbo", SubscribeToBbo)].

(** The helpers that subscribe by user alone, with their topic. *)
Definition user_feeds
  : list (string * (DialResult → option error → string → Callback →
                    WebSocketAPI → WebSocketAPI * option error)) :=
  [("notification", SubscribeToNotification);
   ("userEvents", SubscribeToUserEvents);
   ("userFills", λ dial write_r address, SubscribeToUserFills dial write_r address false);
   ("userFills", λ dial write_r address, SubscribeToUserFills dial write_r address true);
   ("userFundings", SubscribeToUserFundings);
   ("userNonFundingLedgerUpdates", SubscribeToUserNonFundingLedgerUpdates);
   ("userTwapSliceFills", SubscribeToUserTwapSliceFills);
   ("userTwapHistory", SubscribeToUserTwapHistory)].

(** What a frame leaves unchanged. *)
Definition same_but_chans (api api' : WebSocketAPI) : Prop :=
  conn api' = conn api ∧ wsURL api' = wsURL api ∧ connected api' = connected api
  ∧ handlers api' = handlers api ∧ postHandlers api' = postHandlers api
  ∧ idCounter api' = idCounter api ∧ done_closed api' = done_closed api
  ∧ readers api' = readers api ∧ sent api' = sent api.

(** The frames of a feed, each with the order used in its turn and the
    envelope it decodes to. *)
Definition feed_inputs
    (frames : list (list (string * Callback) * json * WsResponse))
  : list (list (string * Callback) * ReadResult) :=
  map (λ f, (f.1.1, ReadOk (Some f.1.2))) frames.

(** The invocations a feed of frames makes of one callback. *)
Definition feed_calls (cb : Callback)
    (frames : list (list (string * Callback) * json * WsResponse)) : list Call :=
  map (λ f, (cb, ArgData (Data f.2))) frames.

(** * Properties *)

(** ** Strings *)

Lemma append_assoc (a b c : string) : (a +:+ b) +:+ c = a +:+ (b +:+ c).
Proof.
  induction a as [|x a IH]; [reflexivity|].
  change (String x ((a +:+ b) +:+ c) = String x (a +:+ (b +:+ c))).
  by rewrite IH.
Qed.

Lemma append_empty_r (a : string) : a +:+ "" = a.
Proof.
  induction a as [|x a IH]; [reflexivity|].
  change (String x (a +:+ "") = String x a). by rewrite IH.
Qed.

Lemma Sprintf_dash_segment (a b : string) :
  b ≠ "" → Sprintf_dash a b = a +:+ segment b.
Proof. intros Hb. unfold Sprintf_dash, segment. by rewrite decide_False. Qed.

Lemma guarded_append (a b : string) :
  (if negb (String.eqb b "") then Sprintf_dash a b else a) = a +:+ segment b.
Proof.
  destruct (String.eqb_spec b "") as [->|Hb]; simpl.
  - unfold segment. rewrite decide_True by done. by rewrite append_empty_r.
  - by apply Sprintf_dash_segment.
Qed.

(** ** Decoding *)

(** The decoder on frames whose member names vary in case, repeat, or
    carry a value of the wrong type. *)
Example unmarshal_name_in_other_case :
  unmarshal_WsResponse
    (JObject [("Channel", JString "l2Book"); ("data", JObject [("coin", JString "ETH")])])
  = Some {| Channel := "l2Book"; Data := JObject [("coin", JString "ETH")] |}.
Proof. reflexivity. Qed.

Example unmarshal_ill_typed_channel :
  unmarshal_WsResponse
    (JObject [("channel", JNumber (QArith_base.inject_Z 5));
              ("channel", JString "l2Book");
              ("data", JObject [("coin", JString "ETH")])])
  = None.
Proof. reflexivity. Qed.

Example unmarshal_data_in_other_case :
  let doc := JObject [("channel", JString "l2Book");
                      ("DATA", JObject [("coin", JString "ETH")])] in
  unmarshal_WsResponse doc
  = Some {| Channel := "l2Book"; Data := JObject [("coin", JString "ETH")] |}
  ∧ dispatch_channelKey {| Channel := "l2Book"; Data := JObject [("coin", JString "ETH")] |}
    = "l2Book-ETH".
Proof. split; reflexivity. Qed.

Example unmarshal_later_null_channel :
  unmarshal_WsResponse
    (JObject [("channel", JString "l2Book"); ("channel", JNull);
              ("data", JObject [("coin", JString "ETH")])])
  = Some {| Channel := "l2Book"; Data := JObject [("coin", JString "ETH")] |}.
Proof. reflexivity. Qed.

Example unmarshal_later_member_counts :
  unmarshal_WsResponse
    (JObject [("channel", JString "post"); ("Channel", JString "trades");
              ("data", JObject [("coin", JString "BTC")])])
  = Some {| Channel := "trades"; Data := JObject [("coin", JString "BTC")] |}.
Proof. reflexivity. Qed.

Example decode_post_truncates_id :
  decode_post
    (JObject [("channel", JString "post");
              ("data", JObject [("id", JNumber (QArith_base.Qmake 3 2));
                                ("response", JObject [("type", JString "info")])])])
  = Some (1, [("type", JString "info")]).
Proof. reflexivity. Qed.

(** ** Channel keys *)

Lemma Subscribe_channelKey_spec (s : Subscription) :
  Subscribe_channelKey s = spec_channel_key s.
Proof.
  unfold Subscribe_channelKey, spec_channel_key.
  rewrite !guarded_append. by rewrite !append_assoc.
Qed.

Lemma Unsubscribe_channelKey_spec (s : Subscription) :
  Unsubscribe_channelKey s = spec_channel_key s.
Proof.
  unfold Unsubscribe_channelKey, spec_channel_key.
  rewrite !guarded_append. by rewrite !append_assoc.
Qed.

(** ** What the operations do to the registry *)

Lemma sendMessage_fields message marshal_r write_r api :
  let api' := (sendMessage message marshal_r write_r api).1 in
  conn api' = conn api ∧ connected api' = connected api
  ∧ handlers api' = handlers api ∧ postHandlers api' = postHandlers api
  ∧ chans api' = chans api ∧ idCounter api' = idCounter api.
Proof.
  unfold sendMessage.
  destruct (connected api) eqn:E, marshal_r, write_r; simpl; done.
Qed.

Lemma sendMessage_write_error message e api :
  connected api = true →
  sendMessage message None (Some e) api = (api, Some e).
Proof. intros H. unfold sendMessage. by rewrite H. Qed.

Lemma Subscribe_connected dial write_r s cb api :
  connected api = true →
  Subscribe dial write_r s cb api =
    sendMessage (SubscriptionMessage "subscribe" s) None write_r
      (set_handlers (<[Subscribe_channelKey s := cb]> (handlers api)) api).
Proof. intros H. unfold Subscribe, IsConnected. by rewrite H. Qed.

Lemma Subscribe_dialled c write_r s cb api :
  connected api = false →
  Subscribe (DialOk c) write_r s cb api =
    sendMessage (SubscriptionMessage "subscribe" s) None write_r
      (set_handlers (<[Subscribe_channelKey s := cb]> (handlers api))
         (Connect (DialOk c) api).1).
Proof. intros H. unfold Subscribe, IsConnected, Connect. by rewrite H. Qed.

Lemma Subscribe_handlers_connected dial write_r s cb api :
  connected api = true →
  handlers (Subscribe dial write_r s cb api).1
  = <[Subscribe_channelKey s := cb]> (handlers api)
  ∧ connected (Subscribe dial write_r s cb api).1 = true.
Proof.
  intros H. rewrite Subscribe_connected by done.
  destruct (sendMessage_fields (SubscriptionMessage "subscribe" s) None write_r
    (set_handlers (<[Subscribe_channelKey s := cb]> (handlers api)) api))
    as (_ & Hc & Hh & _).
  simpl in *. by rewrite Hc, Hh.
Qed.

Lemma Subscribe_handlers dial write_r s cb api :
  connected api = true ∨ (∃ c, dial = DialOk c) →
  handlers (Subscribe dial write_r s cb api).1
  = <[Subscribe_channelKey s := cb]> (handlers api).
Proof.
  intros Hc. destruct (connected api) eqn:E.
  - by apply Subscribe_handlers_connected.
  - destruct Hc as [?|[c ->]]; [done|].
    rewrite Subscribe_dialled by done.
    match goal with |- context [sendMessage ?m ?x ?y ?z] =>
      destruct (sendMessage_fields m x y z) as (_ & _ & -> & _) end.
    unfold Connect. by rewrite E.
Qed.

Lemma Subscribe_connected_after dial write_r s cb api :
  connected api = true ∨ (∃ c, dial = DialOk c) →
  connected (Subscribe dial write_r s cb api).1 = true.
Proof.
  intros Hc. destruct (connected api) eqn:E.
  - by apply Subscribe_handlers_connected.
  - destruct Hc as [?|[c ->]]; [done|].
    rewrite Subscribe_dialled by done.
    match goal with |- context [sendMessage ?m ?x ?y ?z] =>
      destruct (sendMessage_fields m x y z) as (_ & -> & _) end.
    unfold Connect. by rewrite E.
Qed.

Lemma Unsubscribe_connected write_r s api :
  connected api = true →
  Unsubscribe write_r s api =
    sendMessage (UnsubscriptionMessage "unsubscribe" s) None write_r
      (set_handlers (delete (Unsubscribe_channelKey s) (handlers api)) api).
Proof. intros H. unfold Unsubscribe, IsConnected. by rewrite H. Qed.

Lemma Subscribe_not_dialled e write_r s cb api :
  connected api = false →
  Subscribe (DialErr e) write_r s cb api = (api, Some e).
Proof. intros H. unfold Subscribe, IsConnected, Connect. by rewrite H. Qed.

Lemma Unsubscribe_handlers write_r s api :
  handlers (Unsubscribe write_r s api).1
  = if connected api then delete (Unsubscribe_channelKey s) (handlers api)
    else handlers api.
Proof.
  destruct (connected api) eqn:E.
  - rewrite Unsubscribe_connected by done.
    match goal with |- context [sendMessage ?m ?x ?y ?z] =>
      by destruct (sendMessage_fields m x y z) as (_ & _ & -> & _) end.
  - unfold Unsubscribe, IsConnected. by rewrite E.
Qed.

(** C3.  [Subscribe] and [Unsubscribe] compute the same channel key for a
    descriptor: the topic type followed by a dash and the user, a dash and
    the coin, a dash and the interval, in that order, each of the three
    only when the field is non-empty.  That key is the slot [Subscribe]
    writes (unless it fails to connect) and [Unsubscribe] deletes (unless
    the client is not connected). *)
Theorem channel_key_same_fixed_order (s : Subscription) :
  Subscribe_channelKey s = spec_channel_key s
  ∧ Unsubscribe_channelKey s = spec_channel_key s
  ∧ Subscribe_channelKey s = Unsubscribe_channelKey s
  ∧ (∀ dial write_r cb api,
       handlers (Subscribe dial write_r s cb api).1
       = match connected api, dial with
         | false, DialErr _ => handlers api
         | _, _ => <[spec_channel_key s := cb]> (handlers api)
         end)
  ∧ (∀ write_r api,
       handlers (Unsubscribe write_r s api).1
       = if connected api then delete (spec_channel_key s) (handlers api)
         else handlers api).
Proof.
  split; [apply Subscribe_channelKey_spec|].
  split; [apply Unsubscribe_channelKey_spec|].
  split; [by rewrite Subscribe_channelKey_spec, Unsubscribe_channelKey_spec|].
  split.
  - intros dial write_r cb api. rewrite <- Subscribe_channelKey_spec.
    destruct (connected api) eqn:E.
    + apply Subscribe_handlers. by left.
    + destruct dial as [c|e].
      * apply Subscribe_handlers. right. by exists c.
      * by rewrite Subscribe_not_dialled.
  - intros write_r api. rewrite <- Unsubscribe_channelKey_spec.
    apply Unsubscribe_handlers.
Qed.

(** C9.  The key is a function of Type, User, Coin and Interval alone:
    two descriptors that agree on these four share the registry slot,
    whatever their NSigFigs, Mantissa, AggregateByTime and Dex, and
    subscribing to the second replaces the callback of the first. *)
Theorem extra_fields_share_slot (s1 s2 : Subscription) (cb1 cb2 : Callback)
    dial1 dial2 write1 write2 (api : WebSocketAPI) :
  Type_ s1 = Type_ s2 → User s1 = User s2 →
  Coin s1 = Coin s2 → Interval s1 = Interval s2 →
  connected api = true ∨ (∃ c, dial1 = DialOk c) →
  let api1 := (Subscribe dial1 write1 s1 cb1 api).1 in
  let api2 := (Subscribe dial2 write2 s2 cb2 api1).1 in
  Subscribe_channelKey s1 = Subscribe_channelKey s2
  ∧ handlers api1 !! Subscribe_channelKey s1 = Some cb1
  ∧ handlers api2 !! Subscribe_channelKey s1 = Some cb2
  ∧ handlers api2 = <[Subscribe_channelKey s2 := cb2]> (handlers api).
Proof.
  intros HT HU HC HI Hconn api1 api2.
  assert (Hk : Subscribe_channelKey s1 = Subscribe_channelKey s2).
  { unfold Subscribe_channelKey. by rewrite HT, HU, HC, HI. }
  pose proof (Subscribe_handlers dial1 write1 s1 cb1 api Hconn) as H1.
  pose proof (Subscribe_connected_after dial1 write1 s1 cb1 api Hconn) as Hc1.
  destruct (Subscribe_handlers_connected dial2 write2 s2 cb2 api1 Hc1) as [H2 _].
  fold api1 in H1. fold api2 in H2.
  split; [done|]. split; [by rewrite H1, lookup_insert_eq|].
  split.
  - by rewrite H2, Hk, lookup_insert_eq.
  - by rewrite H2, H1, Hk, insert_insert_eq.
Qed.

Lemma extra_fields_share_slot_witness :
  let s1 := {| Type_ := "l2Book"; User := ""; Coin := "ETH"; Interval := "";
               NSigFigs := 5; Mantissa := 2; AggregateByTime := false; Dex := "" |} in
  let s2 := {| Type_ := "l2Book"; User := ""; Coin := "ETH"; Interval := "";
               NSigFigs := 3; Mantissa := 0; AggregateByTime := true; Dex := "x" |} in
  let api := NewWebSocketAPI "m" "t" true in
  let api1 := (Subscribe (DialOk 2%nat) None s1 10%nat api).1 in
  let api2 := (Subscribe (DialOk 3%nat) None s2 11%nat api1).1 in
  Subscribe_channelKey s1 = Subscribe_channelKey s2
  ∧ handlers api1 !! Subscribe_channelKey s1 = Some 10%nat
  ∧ handlers api2 !! Subscribe_channelKey s1 = Some 11%nat
  ∧ handlers api2 = <[Subscribe_channelKey s2 := 11%nat]> (handlers api).
Proof.
  intros s1 s2 api api1 api2.
  apply (extra_fields_share_slot s1 s2 10%nat 11%nat (DialOk 2%nat) (DialOk 3%nat)
           None None api); try reflexivity.
  right. exists 2%nat. reflexivity.
Defined.

(** C10.  Neither operation undoes its registry change when the send
    fails: [Subscribe] returns the error and the callback stays under its
    key; [Unsubscribe] returns the error and the key stays deleted. *)
Theorem send_failure_keeps_registry_change (dial : DialResult) (e : error)
    (s : Subscription) (cb : Callback) (api : WebSocketAPI) :
  (connected api = true ∨ ∃ c, dial = DialOk c) →
  ((Subscribe dial (Some e) s cb api).2 = Some e
   ∧ handlers (Subscribe dial (Some e) s cb api).1 !! Subscribe_channelKey s = Some cb)
  ∧ (connected api = true →
     (Unsubscribe (Some e) s api).2 = Some e
     ∧ handlers (Unsubscribe (Some e) s api).1 !! Unsubscribe_channelKey s = None).
Proof.
  intros Hc. split.
  - destruct (connected api) eqn:Hconn.
    + rewrite Subscribe_connected by done.
      rewrite sendMessage_write_error by done.
      simpl. by rewrite lookup_insert_eq.
    + destruct Hc as [?|[c ->]]; [done|].
      rewrite Subscribe_dialled by done.
      rewrite sendMessage_write_error
        by (unfold Connect; by rewrite Hconn).
      simpl. by rewrite lookup_insert_eq.
  - intros Hconn. rewrite Unsubscribe_connected by done.
    rewrite sendMessage_write_error by done.
    simpl. by rewrite lookup_delete_eq.
Qed.

Lemma send_failure_keeps_registry_change_witness :
  let s := {| Type_ := "trades"; User := ""; Coin := "BTC"; Interval := "";
              NSigFigs := 0; Mantissa := 0; AggregateByTime := false; Dex := "" |} in
  let api := (Connect (DialOk 1%nat) (NewWebSocketAPI "m" "t" true)).1 in
  ((Subscribe (DialOk 2%nat) (Some "broken pipe") s 4%nat api).2 = Some "broken pipe"
   ∧ handlers (Subscribe (DialOk 2%nat) (Some "broken pipe") s 4%nat api).1
       !! Subscribe_channelKey s = Some 4%nat)
  ∧ (connected api = true →
     (Unsubscribe (Some "broken pipe") s api).2 = Some "broken pipe"
     ∧ handlers (Unsubscribe (Some "broken pipe") s api).1
         !! Unsubscribe_channelKey s = None).
Proof.
  intros s api.
  apply (send_failure_keeps_registry_change (DialOk 2%nat) "broken pipe" s 4%nat api).
  left. reflexivity.
Defined.

(** ** Connection lifecycle *)

(** C7.  [Connect] on a connected client and [Disconnect] on a
    disconnected one return no error and leave every field as it was. *)
Theorem connect_disconnect_idempotent (dial : DialResult)
    (write_r close_r : option error) (api : WebSocketAPI) :
  (connected api = true → Connect dial api = (api, None))
  ∧ (connected api = false → Disconnect write_r close_r api = Returns api None).
Proof.
  split; intros H.
  - unfold Connect. by rewrite H.
  - unfold Disconnect. by rewrite H.
Qed.

Lemma connect_disconnect_idempotent_witness :
  let fresh := NewWebSocketAPI "m" "t" false in
  let live := (Connect (DialOk 1%nat) fresh).1 in
  Connect (DialOk 2%nat) live = (live, None)
  ∧ Disconnect None (Some "closed") fresh = Returns fresh None.
Proof.
  intros fresh live. split.
  - apply (connect_disconnect_idempotent (DialOk 2%nat) None None live). reflexivity.
  - apply (connect_disconnect_idempotent (DialOk 2%nat) None (Some "closed") fresh).
    reflexivity.
Defined.

Lemma Connect_preserves dial api :
  conn_when_connected api → conn_when_connected (Connect dial api).1.
Proof.
  unfold conn_when_connected, Connect. intros Inv.
  destruct (connected api) eqn:E; [by simpl; rewrite E|].
  destruct dial; simpl; [eauto|by rewrite E].
Qed.

Lemma Disconnect_preserves write_r close_r api api' r :
  conn_when_connected api →
  Disconnect write_r close_r api = Returns api' r →
  conn_when_connected api'.
Proof.
  unfold conn_when_connected, Disconnect. intros Inv.
  destruct (connected api) eqn:E; simpl; [|intros [= <- _]; by rewrite E].
  destruct (done_closed api); [done|].
  destruct (close_all _ _); [|done].
  destruct (conn api) eqn:Ec; [|done].
  destruct write_r, close_r; intros [= <- _]; simpl; rewrite ?Ec; eauto; done.
Qed.

Lemma readLoop_exit_preserves api : conn_when_connected (readLoop_exit api).
Proof. unfold conn_when_connected, readLoop_exit. simpl. done. Qed.

Lemma sendMessage_preserves message marshal_r write_r api :
  conn_when_connected api →
  conn_when_connected (sendMessage message marshal_r write_r api).1.
Proof.
  unfold conn_when_connected.
  destruct (sendMessage_fields message marshal_r write_r api) as (-> & -> & _).
  done.
Qed.

Lemma Subscribe_preserves dial write_r s cb api :
  conn_when_connected api →
  conn_when_connected (Subscribe dial write_r s cb api).1.
Proof.
  intros Inv. unfold Subscribe, IsConnected.
  pose proof (Connect_preserves dial api Inv) as Hc.
  destruct (connected api) eqn:E; simpl.
  - by apply sendMessage_preserves.
  - destruct (Connect dial api) as [api1 [e|]]; simpl in *; [done|].
    by apply sendMessage_preserves.
Qed.

Lemma Unsubscribe_preserves write_r s api :
  conn_when_connected api →
  conn_when_connected (Unsubscribe write_r s api).1.
Proof.
  intros Inv. unfold Unsubscribe, IsConnected.
  destruct (connected api) eqn:E; simpl; [|done].
  by apply sendMessage_preserves.
Qed.

Lemma Post_issue_preserves dial marshal_r write_r requestType payload api :
  conn_when_connected api →
  match Post_issue dial marshal_r write_r requestType payload api with
  | PostFailed api' _ => conn_when_connected api'
  | PostWaiting api' _ _ => conn_when_connected api'
  end.
Proof.
  intros Inv. unfold Post_issue, IsConnected.
  pose proof (Connect_preserves dial api Inv) as Hc.
  assert (Hgo : ∀ a, conn_when_connected a →
    match
      (let id := wrap32 (idCounter a + 1) in
       let a1 := set_idCounter id a in
       let responseChan := fresh_ref (chans a1) in
       let a2 := set_chans (<[responseChan := make_chan 1]> (chans a1)) a1 in
       let a3 := set_postHandlers (<[id := responseChan]> (postHandlers a2)) a2 in
       let postMsg :=
         PostMessage "post" id {| req_Type := requestType; req_Payload := payload |} in
       let '(a4, err) := sendMessage postMsg marshal_r write_r a3 in
       match err with
       | Some e => PostFailed (set_postHandlers (delete id (postHandlers a4)) a4) e
       | None => PostWaiting a4 id responseChan
       end)
    with
    | PostFailed api' _ => conn_when_connected api'
    | PostWaiting api' _ _ => conn_when_connected api'
    end).
  { intros a Ha. cbv zeta.
    match goal with |- context [sendMessage ?m ?x ?y ?z] =>
      pose proof (sendMessage_preserves m x y z) as Hs;
      destruct (sendMessage m x y z) as [a4 [e|]] end; simpl in *.
    - unfold conn_when_connected in *. simpl. apply Hs. done.
    - apply Hs. done. }
  destruct (connected api) eqn:E; simpl.
  - by apply Hgo.
  - destruct (Connect dial api) as [api1 [e|]]; simpl in *; [done|].
    by apply Hgo.
Qed.

Lemma Post_select_preserves id ch elapsed pick api api' r :
  conn_when_connected api →
  Post_select id ch elapsed pick api = Returns api' r →
  conn_when_connected api'.
Proof.
  unfold conn_when_connected, Post_select. intros Inv.
  destruct pick.
  - destruct (chans api !! ch) as [c|]; [|done].
    destruct (chan_recv c) as [[[e|j] c']|]; [| |done];
      intros [= <- _]; simpl; done.
  - destruct (postTimeout <=? elapsed); [|done].
    intros [= <- _]; simpl; done.
Qed.

Lemma process_post_unfold doc api :
  process_post doc api =
  match decode_post doc with
  | None => Returns api None
  | Some (id, responseObj) =>
      match postHandlers api !! id with
      | None => Returns api None
      | Some ch =>
          match chans api !! ch with
          | None => Blocks
          | Some c =>
              match chan_send (post_value responseObj) c with
              | Sent c' => Returns (set_chans (<[ch := c']> (chans api)) api) None
              | SendBlocks => Blocks
              | SendPanics => Panics "send on closed channel"
              end
          end
      end
  end.
Proof.
  unfold process_post, post_lookup, post_send.
  destruct (decode_post doc) as [[id responseObj]|]; [|done].
  by destruct (postHandlers api !! id).
Qed.

Lemma post_send_returns ch v api api' call :
  post_send ch v api = Returns api' call →
  call = None
  ∧ ∃ c, chans api !! ch = Some c ∧ closed c = false
      ∧ (length (buf c) < cap c)%nat
      ∧ api' = set_chans (<[ch := pushed v c]> (chans api)) api.
Proof.
  unfold post_send, chan_send.
  destruct (chans api !! ch) as [c|]; [|done].
  destruct (closed c) eqn:Hcl; [done|].
  destruct (Nat.ltb_spec (length (buf c)) (cap c)); [|done].
  intros [= <- <-]. split; [done|]. by exists c.
Qed.

Lemma processMessage_fields order message api api' call :
  processMessage order message api = Returns api' call →
  conn api' = conn api ∧ connected api' = connected api
  ∧ handlers api' = handlers api ∧ postHandlers api' = postHandlers api.
Proof.
  unfold processMessage.
  destruct message as [doc|]; [|by intros [= <- _]].
  destruct (unmarshal_WsResponse doc) as [response|]; [|by intros [= <- _]].
  destruct (String.eqb (Channel response) "post").
  - rewrite process_post_unfold.
    destruct (decode_post doc) as [[id responseObj]|]; [|by intros [= <- _]].
    destruct (postHandlers api !! id) as [ch|]; [|by intros [= <- _]].
    destruct (chans api !! ch) as [c|]; [|done].
    destruct (chan_send _ c); [|done..].
    by intros [= <- _].
  - destruct (String.eqb (Channel response) "subscriptionResponse");
      [by intros [= <- _]|].
    destruct (typed_lookup _ _ _ _); [by intros [= <- _]|].
    destruct (handlers api !! _); by intros [= <- _].
Qed.

Lemma readLoop_turn_preserves order read api api' t :
  conn_when_connected api →
  readLoop_turn order read api = Returns api' t →
  conn_when_connected api'.
Proof.
  unfold readLoop_turn. intros Inv.
  destruct (done_closed api).
  { intros [= <- _]. apply readLoop_exit_preserves. }
  destruct read as [e|message].
  { intros [= <- _]. apply readLoop_exit_preserves. }
  destruct (processMessage order message api) as [api1 call| |] eqn:E; [|done..].
  intros [= <- _].
  destruct (processMessage_fields _ _ _ _ _ E) as (Hc & Hf & _).
  unfold conn_when_connected. by rewrite Hc, Hf.
Qed.

Lemma step_preserves api api' :
  step api api' → conn_when_connected api → conn_when_connected api'.
Proof.
  intros Hstep Inv. destruct Hstep.
  - by apply Connect_preserves.
  - by eapply Disconnect_preserves.
  - by apply Subscribe_preserves.
  - by apply Unsubscribe_preserves.
  - pose proof (Post_issue_preserves dial marshal_r write_r requestType payload api Inv) as HP.
    by rewrite H in HP.
  - pose proof (Post_issue_preserves dial marshal_r write_r requestType payload api Inv) as HP.
    by rewrite H in HP.
  - by eapply Post_select_preserves.
  - by eapply readLoop_turn_preserves.
  - match goal with H : post_send _ _ _ = _ |- _ =>
      apply post_send_returns in H as (_ & c & _ & _ & _ & ->) end.
    exact Inv.
Qed.

(** The handle after an operation is the handle from before, or the one
    a successful dial on a disconnected client has returned. *)
Lemma Connect_conn dial api :
  conn (Connect dial api).1 = conn api
  ∨ (connected api = false ∧ ∃ c, dial = DialOk c ∧ conn (Connect dial api).1 = Some c).
Proof.
  unfold Connect. destruct (connected api) eqn:E; [by left|].
  destruct dial as [c|e]; [|by left]. right. split; [done|]. by exists c.
Qed.

Lemma Disconnect_conn write_r close_r api api' r :
  Disconnect write_r close_r api = Returns api' r →
  conn api' = conn api ∧ (close_r = None → connected api' = false).
Proof.
  unfold Disconnect.
  destruct (connected api) eqn:E; simpl; [|intros [= <- _]; by rewrite E].
  destruct (done_closed api); [done|].
  destruct (close_all _ _); [|done].
  destruct (conn api) eqn:Ec; [|done].
  destruct write_r, close_r; intros [= <- _]; simpl; by rewrite ?Ec.
Qed.

Lemma Post_select_conn id ch elapsed pick api api' r :
  Post_select id ch elapsed pick api = Returns api' r → conn api' = conn api.
Proof.
  unfold Post_select. destruct pick.
  - destruct (chans api !! ch) as [c|]; [|done].
    destruct (chan_recv c) as [[[e|j] c']|]; [| |done]; by intros [= <- _].
  - destruct (postTimeout <=? elapsed); [|done]. by intros [= <- _].
Qed.

Lemma readLoop_turn_conn order read api api' t :
  readLoop_turn order read api = Returns api' t → conn api' = conn api.
Proof.
  unfold readLoop_turn.
  destruct (done_closed api); [by intros [= <- _]|].
  destruct read as [e|message]; [by intros [= <- _]|].
  destruct (processMessage order message api) as [a call| |] eqn:E; [|done..].
  intros [= <- _]. by destruct (processMessage_fields _ _ _ _ _ E) as (-> & _).
Qed.

Lemma Subscribe_conn dial write_r s cb api :
  conn (Subscribe dial write_r s cb api).1 = conn api
  ∨ (connected api = false ∧ ∃ c, conn (Subscribe dial write_r s cb api).1 = Some c).
Proof.
  unfold Subscribe, IsConnected.
  destruct (connected api) eqn:E; cbn [negb].
  - left.
    match goal with |- context [sendMessage ?m ?x ?y ?z] =>
      by destruct (sendMessage_fields m x y z) as (-> & _) end.
  - destruct (Connect_conn dial api) as [Hc|(_ & c & -> & Hc)].
    + left. destruct (Connect dial api) as [a [e|]]; simpl in *; [done|].
      match goal with |- context [sendMessage ?m ?x ?y ?z] =>
        by destruct (sendMessage_fields m x y z) as (-> & _) end.
    + right. split; [done|]. exists c.
      unfold Connect in *. rewrite E in *. simpl in *.
      match goal with |- context [sendMessage ?m ?x ?y ?z] =>
        by destruct (sendMessage_fields m x y z) as (-> & _) end.
Qed.

Lemma Unsubscribe_conn write_r s api :
  conn (Unsubscribe write_r s api).1 = conn api.
Proof.
  unfold Unsubscribe, IsConnected. destruct (connected api); [|done]. cbn [negb].
  match goal with |- context [sendMessage ?m ?x ?y ?z] =>
    by destruct (sendMessage_fields m x y z) as (-> & _) end.
Qed.

Lemma Post_issue_conn dial marshal_r write_r requestType payload api :
  let api' := issued (Post_issue dial marshal_r write_r requestType payload api) in
  conn api' = conn api ∨ (connected api = false ∧ ∃ c, conn api' = Some c).
Proof.
  cbv zeta. unfold Post_issue, IsConnected.
  assert (Hgo : ∀ a,
    conn (issued
      (let id := wrap32 (idCounter a + 1) in
       let a1 := set_idCounter id a in
       let responseChan := fresh_ref (chans a1) in
       let a2 := set_chans (<[responseChan := make_chan 1]> (chans a1)) a1 in
       let a3 := set_postHandlers (<[id := responseChan]> (postHandlers a2)) a2 in
       let postMsg :=
         PostMessage "post" id {| req_Type := requestType; req_Payload := payload |} in
       let '(a4, err) := sendMessage postMsg marshal_r write_r a3 in
       match err with
       | Some e => PostFailed (set_postHandlers (delete id (postHandlers a4)) a4) e
       | None => PostWaiting a4 id responseChan
       end)) = conn a).
  { intros a. cbv zeta.
    match goal with |- context [sendMessage ?m ?x ?y ?z] =>
      destruct (sendMessage_fields m x y z) as (Hc & _);
      destruct (sendMessage m x y z) as [a4 [e|]] end; simpl in *; by rewrite Hc. }
  destruct (connected api) eqn:E; cbn [negb].
  - left. apply Hgo.
  - destruct (Connect_conn dial api) as [Hc|(_ & c & _ & Hc)];
      destruct (Connect dial api) as [a [e|]]; simpl in Hc; cbn beta iota.
    + by left.
    + left. etrans; [apply Hgo|done].
    + right. split; [done|]. by exists c.
    + right. split; [done|]. exists c. etrans; [apply Hgo|done].
Qed.

Lemma step_conn api api' :
  step api api' →
  conn api' = conn api ∨ (connected api = false ∧ ∃ c, conn api' = Some c).
Proof.
  intros Hstep. destruct Hstep.
  - destruct (Connect_conn dial api) as [?|(? & c & _ & ?)]; [by left|].
    right. split; [done|]. by exists c.
  - left. by eapply Disconnect_conn.
  - apply Subscribe_conn.
  - left. apply Unsubscribe_conn.
  - pose proof (Post_issue_conn dial marshal_r write_r requestType payload api) as HP.
    by rewrite H in HP.
  - pose proof (Post_issue_conn dial marshal_r write_r requestType payload api) as HP.
    by rewrite H in HP.
  - left. by eapply Post_select_conn.
  - left. by eapply readLoop_turn_conn.
  - left. match goal with H : post_send _ _ _ = _ |- _ =>
      by apply post_send_returns in H as (_ & c & _ & _ & _ & ->) end.
Qed.

(** Until a dial succeeds no operation changes the client. *)
Lemma step_from_new m t b api' :
  step (NewWebSocketAPI m t b) api' →
  conn api' = None → api' = NewWebSocketAPI m t b.
Proof.
  intros Hstep Hnone.
  assert (Hpost : ∀ c0 marshal_r write_r requestType payload,
    conn (issued (Post_issue (DialOk c0) marshal_r write_r requestType payload
                    (NewWebSocketAPI m t b))) = Some c0).
  { intros. unfold Post_issue, IsConnected.
    cbn [negb connected NewWebSocketAPI Connect]. cbv zeta.
    match goal with |- context [sendMessage ?m ?x ?y ?z] =>
      destruct (sendMessage_fields m x y z) as (Hc & _);
      destruct (sendMessage m x y z) as [a4 [e|]] end; simpl in *; by rewrite Hc. }
  inversion Hstep; subst.
  - destruct dial as [c0|e0]; [done|]. reflexivity.
  - match goal with H : Disconnect _ _ _ = _ |- _ => by injection H as <- _ end.
  - destruct dial as [c0|e0]; [|done]. exfalso. revert Hnone.
    unfold Subscribe, IsConnected. cbn [negb connected NewWebSocketAPI Connect].
    match goal with |- context [sendMessage ?m ?x ?y ?z] =>
      by destruct (sendMessage_fields m x y z) as (-> & _) end.
  - reflexivity.
  - destruct dial as [c0|e0].
    + specialize (Hpost c0 marshal_r write_r requestType payload).
      match goal with H : Post_issue _ _ _ _ _ _ = _ |- _ => rewrite H in Hpost end.
      simpl in Hpost. congruence.
    + match goal with H : Post_issue _ _ _ _ _ _ = _ |- _ => by injection H as <- _ end.
  - destruct dial as [c0|e0].
    + specialize (Hpost c0 marshal_r write_r requestType payload).
      match goal with H : Post_issue _ _ _ _ _ _ = _ |- _ => rewrite H in Hpost end.
      simpl in Hpost. congruence.
    + match goal with H : Post_issue _ _ _ _ _ _ = _ |- _ => done end.
  - match goal with H : Post_select _ _ _ _ _ = _ |- _ =>
      revert H; unfold Post_select end. destruct pick.
    + cbn [chans NewWebSocketAPI]. by rewrite lookup_empty.
    + destruct (postTimeout <=? elapsed); [|done]. intros [= <-].
      unfold set_postHandlers. cbn [postHandlers NewWebSocketAPI].
      by rewrite delete_empty.
  - simpl in *. lia.
  - match goal with H : post_send _ _ _ = _ |- _ =>
      revert H; unfold post_send end.
    cbn [chans NewWebSocketAPI]. by rewrite lookup_empty.
Qed.

(** C6 (as the code has it).  In every reachable state the connection
    handle is non-nil when the connected flag is true, and [Connect],
    [Disconnect] and the exit path of the reader keep it so.  Nothing is
    promised about the handle when the flag is false, since no operation
    ever resets it: a client whose handle is nil is still as the
    constructor left it, a successful dial sets the handle, every later
    step keeps a handle in place, [Disconnect] leaves the handle as it
    is (clearing the flag when the transport closes cleanly and leaving
    it set when the close fails), and the reader's exit clears the flag
    and leaves the handle. *)
Theorem connected_implies_conn (api : WebSocketAPI) :
  reachable api →
  (connected api = true → is_Some (conn api))
  ∧ (conn api = None → ∃ m t b, api = NewWebSocketAPI m t b)
  ∧ (∀ api', step api api' → is_Some (conn api) → is_Some (conn api'))
  ∧ (∀ dial, conn_when_connected (Connect dial api).1)
  ∧ (∀ c, connected api = false → conn (Connect (DialOk c) api).1 = Some c)
  ∧ (∀ write_r close_r api' r,
       Disconnect write_r close_r api = Returns api' r →
       conn_when_connected api'
       ∧ conn api' = conn api
       ∧ (close_r = None → connected api' = false)
       ∧ (close_r ≠ None → connected api' = connected api))
  ∧ (conn_when_connected (readLoop_exit api)
     ∧ conn (readLoop_exit api) = conn api
     ∧ connected (readLoop_exit api) = false).
Proof.
  intros Hr.
  assert (Inv : conn_when_connected api).
  { destruct Hr as (m & t & b & Hrtc).
    revert api Hrtc. apply rtc_ind_r; [done|].
    intros y z _ Hstep IH. by eapply step_preserves. }
  split; [exact Inv|]. split; [|split; [|split; [|split; [|split]]]].
  - destruct Hr as (m & t & b & Hrtc). intros Hnone. exists m, t, b.
    revert api Hrtc Inv Hnone. apply (rtc_ind_r (λ a, _ → conn a = None → a = _)); [done|].
    intros y z Hrtc Hstep IH _ Hnone.
    destruct (step_conn y z Hstep) as [Hsame|(_ & c & Hc)]; [|congruence].
    assert (y = NewWebSocketAPI m t b) as ->.
    { apply IH; [|congruence].
      clear Hstep IH Hsame. revert y Hrtc. apply rtc_ind_r; [done|].
      intros a a' _ Hstep IH. by eapply step_preserves. }
    by apply step_from_new.
  - intros api' Hstep [c Hc].
    destruct (step_conn api api' Hstep) as [Hsame|(_ & c' & Hc')].
    + rewrite Hsame, Hc. by exists c.
    + by exists c'.
  - intros dial. by apply Connect_preserves.
  - intros c Hc. unfold Connect. by rewrite Hc.
  - intros write_r close_r api' r HD.
    destruct (Disconnect_conn _ _ _ _ _ HD) as [Hsame Hflag].
    split; [by eapply Disconnect_preserves|]. split; [done|]. split; [done|].
    revert HD. unfold Disconnect.
    destruct (connected api) eqn:E; simpl; [|intros [= <- _]; by rewrite E].
    destruct (done_closed api); [done|].
    destruct (close_all _ _); [|done].
    destruct (conn api); [|done].
    destruct write_r, close_r; intros [= <- _] Hne; simpl; by rewrite ?E.
  - split; [by apply readLoop_exit_preserves|]. done.
Qed.

Lemma reachable_after_Connect :
  reachable (Connect (DialOk 7%nat) (NewWebSocketAPI "m" "t" true)).1.
Proof.
  exists "m", "t", true. eapply rtc_l; [apply step_Connect|]. apply rtc_refl.
Defined.

Lemma connected_implies_conn_witness :
  is_Some (conn (Connect (DialOk 7%nat) (NewWebSocketAPI "m" "t" true)).1).
Proof.
  destruct (connected_implies_conn _ reachable_after_Connect) as [H _].
  apply H. reflexivity.
Defined.

(** C6 as stated fails: after a successful [Connect] and a clean
    [Disconnect] the flag is false and the handle is still set. *)
Lemma conn_kept_after_Disconnect :
  let api := set_connected false
    (set_sent [CloseMessage]
      (set_done_closed true (Connect (DialOk 7%nat) (NewWebSocketAPI "m" "t" true)).1)) in
  Disconnect None None (Connect (DialOk 7%nat) (NewWebSocketAPI "m" "t" true)).1
    = Returns api None
  ∧ reachable api ∧ connected api = false ∧ conn api = Some 7%nat.
Proof.
  intros api.
  assert (HD : Disconnect None None
                 (Connect (DialOk 7%nat) (NewWebSocketAPI "m" "t" true)).1
               = Returns api None) by reflexivity.
  split; [exact HD|]. split; [|split; reflexivity].
  exists "m", "t", true.
  eapply rtc_l; [apply (step_Connect (DialOk 7%nat))|].
  eapply rtc_l; [eapply step_Disconnect; exact HD|]. apply rtc_refl.
Qed.

(** ** Request correlation *)

Lemma process_post_absent doc id responseObj api :
  decode_post doc = Some (id, responseObj) →
  postHandlers api !! id = None →
  process_post doc api = Returns api None.
Proof. intros Hd Hid. rewrite process_post_unfold. by rewrite Hd, Hid. Qed.

Lemma processMessage_post order doc response api :
  unmarshal_WsResponse doc = Some response →
  Channel response = "post" →
  processMessage order (Some doc) api = process_post doc api.
Proof. intros Hu Hc. unfold processMessage. by rewrite Hu, Hc. Qed.

Lemma Post_issue_waiting dial marshal_r write_r requestType payload api api' id ch :
  Post_issue dial marshal_r write_r requestType payload api = PostWaiting api' id ch →
  postHandlers api' !! id = Some ch ∧ chans api' !! ch = Some (make_chan 1).
Proof.
  unfold Post_issue.
  destruct (if negb (IsConnected api) then Connect dial api else (api, None))
    as [a [e|]]; [done|].
  cbv zeta.
  match goal with |- context [sendMessage ?m ?x ?y ?z] =>
    pose proof (sendMessage_fields m x y z) as (_ & _ & _ & Hp & Hs & _);
    destruct (sendMessage m x y z) as [a4 [e|]] end; [done|].
  intros [= <- <- <-]. simpl in Hp, Hs. rewrite Hp, Hs.
  by rewrite !lookup_insert_eq.
Qed.

(** C2.  A [Post] whose response channel is still empty and open when the
    15 seconds have passed can only leave its [select] through the timer:
    it returns the error "request timeout", its deferred delete has
    removed the id from the table, and a response for that id that arrives
    afterwards changes nothing and calls nothing.  Before the 15 seconds
    the timer case is not ready. *)
Theorem post_timeout (id : Z) (ch : ChanRef) (c : Chan) (elapsed : Z)
    (api : WebSocketAPI) :
  chans api !! ch = Some c → buf c = [] → closed c = false →
  postTimeout ≤ elapsed →
  let api' := set_postHandlers (delete id (postHandlers api)) api in
  postTimeout = 15 * 1000000000
  ∧ (∀ t, t < postTimeout → Post_select id ch t TimerFired api = Blocks)
  ∧ Post_select id ch elapsed RecvResponse api = Blocks
  ∧ Post_select id ch elapsed TimerFired api
    = Returns api' (nil_value, Some "request timeout")
  ∧ postHandlers api' !! id = None
  ∧ (∀ order doc response responseObj,
       unmarshal_WsResponse doc = Some response →
       Channel response = "post" →
       decode_post doc = Some (id, responseObj) →
       processMessage order (Some doc) api' = Returns api' None).
Proof.
  intros Hch Hbuf Hopen Hel api'.
  split; [reflexivity|]. split.
  { intros t Ht. unfold Post_select.
    destruct (Z.leb_spec postTimeout t); [lia|done]. }
  split.
  { unfold Post_select, chan_recv. by rewrite Hch, Hbuf, Hopen. }
  split.
  { unfold Post_select. destruct (Z.leb_spec postTimeout elapsed); [done|lia]. }
  assert (Hgone : postHandlers api' !! id = None) by apply lookup_delete_eq.
  split; [exact Hgone|].
  intros order doc response responseObj Hu Hc Hd.
  rewrite (processMessage_post order doc response api' Hu Hc).
  by eapply process_post_absent.
Qed.

Lemma post_timeout_witness :
  let api := set_postHandlers {[ 1 := 0%nat ]}
    (set_chans {[ 0%nat := make_chan 1 ]}
      (Connect (DialOk 7%nat) (NewWebSocketAPI "m" "t" true)).1) in
  let api' := set_postHandlers (delete 1 (postHandlers api)) api in
  let late := JObject [("channel", JString "post");
                       ("data", JObject [("id", JNumber (QArith_base.inject_Z 1));
                                         ("response", JObject [("type", JString "info");
                                                               ("payload", JString "x")])])] in
  Post_select 1 0%nat (15 * 1000000000) TimerFired api
    = Returns api' (nil_value, Some "request timeout")
  ∧ postHandlers api' !! 1 = None
  ∧ processMessage [] (Some late) api' = Returns api' None.
Proof.
  intros api api' late.
  destruct (post_timeout 1 0%nat (make_chan 1) (15 * 1000000000) api)
    as (_ & _ & _ & Ht & Hg & Hl).
  - reflexivity.
  - reflexivity.
  - reflexivity.
  - vm_compute. discriminate.
  - split; [exact Ht|]. split; [exact Hg|].
    apply (Hl [] late {| Channel := "post";
                         Data := JObject [("id", JNumber (QArith_base.inject_Z 1));
                                          ("response", JObject [("type", JString "info");
                                                                ("payload", JString "x")])] |}
              [("type", JString "info"); ("payload", JString "x")]);
      reflexivity.
Defined.

(** *** Disconnect and the outstanding requests *)

Lemma table_ok_insert id ch table store :
  table !! id = None →
  table_ok (<[id := ch]> table) store →
  table_ok table store ∧ (∀ id', table !! id' ≠ Some ch).
Proof.
  intros Hfresh [Hopen Hinj]. split; [split|].
  - intros id' ch' H'. apply (Hopen id').
    rewrite lookup_insert_ne; [done|]. intros <-. by rewrite Hfresh in H'.
  - intros id1 id2 ch' H1 H2.
    apply (Hinj id1 id2 ch'); (rewrite lookup_insert_ne; [done|]);
      intros <-; by rewrite Hfresh in *.
  - intros id' H'.
    assert (id' = id) as ->; [|by rewrite Hfresh in H'].
    apply (Hinj id' id ch); [|by rewrite lookup_insert_eq].
    rewrite lookup_insert_ne; [done|]. intros <-. by rewrite Hfresh in H'.
Qed.

Lemma close_all_ok (table : gmap Z ChanRef) (store : gmap ChanRef Chan) :
  table_ok table store →
  ∃ store', close_all table store = Some store'
    ∧ (∀ id ch c, table !! id = Some ch → store !! ch = Some c →
         store' !! ch = Some (closed_copy c))
    ∧ (∀ ch, (∀ id, table !! id ≠ Some ch) → store' !! ch = store !! ch).
Proof.
  unfold close_all.
  apply (map_fold_weak_ind
    (λ r m, table_ok m store →
       ∃ store', r = Some store'
         ∧ (∀ id ch c, m !! id = Some ch → store !! ch = Some c →
              store' !! ch = Some (closed_copy c))
         ∧ (∀ ch, (∀ id, m !! id ≠ Some ch) → store' !! ch = store !! ch))).
  - intros _. exists store. split; [done|]. split; [|done].
    intros id ch c H. by rewrite lookup_empty in H.
  - intros id ch m r Hfresh IH Hok.
    destruct (table_ok_insert id ch m store Hfresh Hok) as [Hok' Hnew].
    destruct (IH Hok') as (st & -> & Hclosed & Hkept).
    destruct Hok as [Hopen _].
    destruct (Hopen id ch) as (c & Hc & Hcopen); [by rewrite lookup_insert_eq|].
    simpl. rewrite (Hkept ch Hnew), Hc. unfold chan_close. rewrite Hcopen.
    eexists. split; [done|]. split.
    + intros id' ch' c' Hl Hs.
      destruct (decide (id = id')) as [<-|Hne].
      * rewrite lookup_insert_eq in Hl. injection Hl as <-.
        rewrite lookup_insert_eq. rewrite Hc in Hs. by injection Hs as <-.
      * rewrite lookup_insert_ne in Hl by done.
        rewrite lookup_insert_ne; [by eapply Hclosed|].
        intros <-. by apply (Hnew id').
    + intros ch' Hnone.
      assert (ch ≠ ch') as Hne.
      { intros <-. apply (Hnone id). by rewrite lookup_insert_eq. }
      rewrite lookup_insert_ne by done. apply Hkept.
      intros id' Hl. apply (Hnone id').
      rewrite lookup_insert_ne; [done|]. intros <-. by rewrite Hfresh in Hl.
Qed.

(** What [Disconnect] does to the requests outstanding on a connected
    client: the table is emptied and every registered channel is closed
    with nothing put on it, so a caller parked on an empty channel leaves
    its [select] through the receive case with the zero value, and [Post]
    returns a nil payload and a nil error. *)
Lemma Disconnect_pending write_r close_r api :
  connected api = true → done_closed api = false → is_Some (conn api) →
  table_ok (postHandlers api) (chans api) →
  ∃ api' r, Disconnect write_r close_r api = Returns api' r
    ∧ postHandlers api' = ∅
    ∧ handlers api' = ∅
    ∧ ∀ id ch c t, postHandlers api !! id = Some ch → chans api !! ch = Some c →
        chans api' !! ch = Some (closed_copy c)
        ∧ (buf c = [] →
           ∃ api'', Post_select id ch t RecvResponse api'
                    = Returns api'' (nil_value, None)).
Proof.
  intros Hconn Hdone [cn Hcn] Hok.
  destruct (close_all_ok _ _ Hok) as (store' & Hclose & Hclosed & _).
  assert (HD : ∃ api' r, Disconnect write_r close_r api = Returns api' r
             ∧ chans api' = store' ∧ postHandlers api' = ∅ ∧ handlers api' = ∅).
  { unfold Disconnect. rewrite Hconn, Hdone. simpl. rewrite Hclose, Hcn.
    destruct write_r, close_r; do 2 eexists; repeat split; reflexivity. }
  destruct HD as (api' & r & HD & Hch & Hp & Hh).
  exists api', r. split; [done|]. split; [done|]. split; [done|].
  intros id ch c t Hl Hs. rewrite Hch.
  split; [by eapply Hclosed|]. intros Hb.
  unfold Post_select. rewrite Hch, (Hclosed id ch c Hl Hs).
  unfold chan_recv, closed_copy; simpl. rewrite Hb. eauto.
Qed.

(** C1 on the code.  Two requests are outstanding on a connected client,
    with ids 1 and 2.  [Disconnect] returns no error and leaves the table
    empty, but each parked [Post] then leaves its [select] through the
    receive case and returns the nil payload with a nil error: no
    cancellation error reaches the callers. *)
Theorem Disconnect_leaves_Post_with_nil_nil :
  let outcome := Disconnect None None (issued two_parked) in
  (∃ api1, one_parked = PostWaiting api1 1 0%nat)
  ∧ (∃ api2, two_parked = PostWaiting api2 2 1%nat)
  ∧ returned outcome = Some None
  ∧ postHandlers <$> state_after outcome = Some ∅
  ∧ (api3 ← state_after outcome; returned (Post_select 1 0%nat 0 RecvResponse api3))
    = Some (VData JNull, None)
  ∧ (api3 ← state_after outcome; returned (Post_select 2 1%nat 0 RecvResponse api3))
    = Some (VData JNull, None).
Proof.
  intros outcome.
  split; [exists (issued one_parked); by vm_compute|].
  split; [exists (issued two_parked); by vm_compute|].
  repeat split; by vm_compute.
Qed.

(** ** Dispatch *)

Lemma length_append (a b : string) :
  String.length (a +:+ b) = (String.length a + String.length b)%nat.
Proof.
  induction a as [|x a IH]; [reflexivity|].
  change (S (String.length (a +:+ b)) = S (String.length a + String.length b)).
  by rewrite IH.
Qed.

Lemma substring_prefix (p s : string) :
  String.substring 0 (String.length p) s = p ↔ ∃ rest, s = p +:+ rest.
Proof.
  revert s. induction p as [|x p IH]; intros s.
  - split; [intros _; by exists s|intros _; by destruct s].
  - destruct s as [|y s]; simpl.
    + split; [done|]. by intros [rest ?].
    + split.
      * intros [= -> H]. apply IH in H as [rest ->]. by exists rest.
      * intros [rest H]. change (String y s = String x (p +:+ rest)) in H.
        injection H as -> ->. f_equal. apply IH. by exists rest.
Qed.

(** The scan accepts exactly the keys that extend "orderUpdates-" by at
    least one character. *)
Lemma prefix_matches_iff (hKey : string) :
  prefix_matches hKey = true ↔ ∃ rest, rest ≠ "" ∧ hKey = prefixToMatch +:+ rest.
Proof.
  unfold prefix_matches. rewrite andb_true_iff, Nat.ltb_lt, String.eqb_eq.
  rewrite substring_prefix. split.
  - intros [Hlen [rest ->]]. exists rest. split; [|done].
    intros ->. rewrite append_empty_r in Hlen. lia.
  - intros (rest & Hne & ->). split; [|by exists rest].
    rewrite length_append. destruct rest; [done|simpl; lia].
Qed.

Lemma prefix_scan_Some order h :
  prefix_scan order = Some h →
  ∃ hKey, (hKey, h) ∈ order ∧ prefix_matches hKey = true.
Proof.
  induction order as [|[k h'] rest IH]; simpl; [done|].
  destruct (prefix_matches k) eqn:E.
  - intros [= ->]. exists k. split; [left|done].
  - intros H. destruct (IH H) as (k' & Hin & Hm). exists k'. split; [by right|done].
Qed.

Lemma prefix_scan_None order :
  prefix_scan order = None →
  ∀ hKey h, (hKey, h) ∈ order → prefix_matches hKey = false.
Proof.
  induction order as [|[k h'] rest IH]; simpl; intros Hs hKey h Hin.
  - by apply elem_of_nil in Hin.
  - destruct (prefix_matches k) eqn:E; [done|].
    apply elem_of_cons in Hin as [[= -> ->]|Hin]; [done|]. by eapply IH.
Qed.

Lemma range_order (m : gmap string Callback) order hKey h :
  order ≡ₚ map_to_list m → (hKey, h) ∈ order ↔ m !! hKey = Some h.
Proof. intros ->. apply elem_of_map_to_list. Qed.

Lemma processMessage_feed order doc response api :
  unmarshal_WsResponse doc = Some response →
  Channel response ≠ "post" → Channel response ≠ "subscriptionResponse" →
  processMessage order (Some doc) api =
    match typed_lookup order response (dispatch_channelKey response) api with
    | Some handler => Returns api (Some (handler, ArgOrders (Data response)))
    | None =>
        match handlers api !! dispatch_channelKey response with
        | Some handler => Returns api (Some (handler, ArgData (Data response)))
        | None => Returns api None
        end
    end.
Proof.
  intros Hu Hp Hs. unfold processMessage. rewrite Hu.
  apply String.eqb_neq in Hp, Hs. by rewrite Hp, Hs.
Qed.

(** C4 (as the code has it).  For an order-updates message whose derived
    key has no exact match, the scan picks a callback registered under a
    key that extends "orderUpdates-" (the topic type with a user segment)
    whenever the registry holds one, and calls it with the orders of the
    message; the bare key "orderUpdates" is not such a key, and when the
    registry holds no such key the message is dropped. *)
Theorem order_updates_prefix_fallback (order : list (string * Callback))
    (doc : json) (response : WsResponse) (api : WebSocketAPI) :
  unmarshal_WsResponse doc = Some response →
  Channel response = "orderUpdates" →
  order ≡ₚ map_to_list (handlers api) →
  handlers api !! dispatch_channelKey response = None →
  prefix_matches "orderUpdates" = false
  ∧ ((∃ hKey h, handlers api !! hKey = Some h ∧ prefix_matches hKey = true) →
     ∃ hKey h, handlers api !! hKey = Some h ∧ prefix_matches hKey = true
       ∧ processMessage order (Some doc) api
         = Returns api (Some (h, ArgOrders (Data response))))
  ∧ ((∀ hKey h, handlers api !! hKey = Some h → prefix_matches hKey = false) →
     processMessage order (Some doc) api = Returns api None).
Proof.
  intros Hu Hc Hperm Hexact. split; [reflexivity|].
  assert (Htyped : typed_lookup order response (dispatch_channelKey response) api
                   = prefix_scan order).
  { unfold typed_lookup. by rewrite Hc, Hexact. }
  assert (Hfeed := processMessage_feed order doc response api Hu).
  rewrite Hc in Hfeed. specialize (Hfeed ltac:(done) ltac:(done)).
  rewrite Htyped, Hexact in Hfeed.
  split.
  - intros (k0 & h0 & Hk0 & Hm0).
    destruct (prefix_scan order) as [h|] eqn:Hscan.
    + destruct (prefix_scan_Some order h Hscan) as (k & Hin & Hm).
      exists k, h. split; [by apply (range_order (handlers api) order)|]. split; [done|].
      by rewrite Hfeed.
    + apply (range_order (handlers api) order) in Hk0; [|done].
      by rewrite (prefix_scan_None order Hscan k0 h0 Hk0) in Hm0.
  - intros Hnone.
    destruct (prefix_scan order) as [h|] eqn:Hscan; [|done].
    destruct (prefix_scan_Some order h Hscan) as (k & Hin & Hm).
    apply (range_order (handlers api) order) in Hin; [|done].
    by rewrite (Hnone k h Hin) in Hm.
Qed.

Lemma order_updates_prefix_fallback_witness :
  let api := set_handlers {[ "orderUpdates-0xabc" := 5%nat ]}
    (Connect (DialOk 7%nat) (NewWebSocketAPI "m" "t" true)).1 in
  let data := JArray [JObject [("status", JString "open")]] in
  let doc := JObject [("channel", JString "orderUpdates"); ("data", data)] in
  ∃ hKey h, handlers api !! hKey = Some h ∧ prefix_matches hKey = true
    ∧ processMessage (map_to_list (handlers api)) (Some doc) api
      = Returns api (Some (h, ArgOrders data)).
Proof.
  intros api data doc.
  destruct (order_updates_prefix_fallback (map_to_list (handlers api)) doc
              {| Channel := "orderUpdates"; Data := data |} api)
    as (_ & Hsome & _).
  - reflexivity.
  - reflexivity.
  - reflexivity.
  - reflexivity.
  - apply Hsome. exists "orderUpdates-0xabc", 5%nat. split; reflexivity.
Defined.

(** C4 as stated fails: the only callback is registered under the bare
    topic type, the key derived from the message has a user segment, and
    the message is dropped. *)
Lemma bare_order_updates_handler_not_selected :
  let s := {| Type_ := "orderUpdates"; User := ""; Coin := ""; Interval := "";
              NSigFigs := 0; Mantissa := 0; AggregateByTime := false; Dex := "" |} in
  let api := (Subscribe (DialOk 7%nat) None s 5%nat (NewWebSocketAPI "m" "t" true)).1 in
  let doc := JObject [("channel", JString "orderUpdates");
                      ("data", JObject [("user", JString "0xabc")])] in
  map_to_list (handlers api) = [("orderUpdates", 5%nat)]
  ∧ (dispatch_channelKey <$> unmarshal_WsResponse doc) = Some "orderUpdates-0xabc"
  ∧ handlers api !! "orderUpdates-0xabc" = None
  ∧ processMessage (map_to_list (handlers api)) (Some doc) api = Returns api None.
Proof. repeat split; by vm_compute. Qed.

Lemma dispatch_channelKey_bare (response : WsResponse) :
  get_string "coin" (as_map (Some (Data response))) = None →
  get_string "user" (as_map (Some (Data response))) = None →
  dispatch_channelKey response = Channel response.
Proof. intros Hc Hu. unfold dispatch_channelKey. by rewrite Hc, Hu. Qed.

Lemma dispatch_channelKey_bare_iff (response : WsResponse) :
  dispatch_channelKey response = Channel response
  ↔ get_string "coin" (as_map (Some (Data response))) = None
    ∧ get_string "user" (as_map (Some (Data response))) = None.
Proof.
  split; [|intros [Hc Hu]; by apply dispatch_channelKey_bare].
  intros H. apply (f_equal String.length) in H. revert H.
  unfold dispatch_channelKey, Sprintf_dash.
  destruct (get_string "coin" _) as [coin|], (get_string "user" _) as [user|];
    rewrite ?length_append; simpl; intros H; first [done | lia].
Qed.

Lemma dispatch_channelKey_coin_user (response : WsResponse) coin user :
  get_string "coin" (as_map (Some (Data response))) = Some coin →
  get_string "user" (as_map (Some (Data response))) = Some user →
  dispatch_channelKey response = Channel response +:+ "-" +:+ coin +:+ "-" +:+ user.
Proof.
  intros Hc Hu. unfold dispatch_channelKey, Sprintf_dash. rewrite Hc, Hu.
  by rewrite append_assoc.
Qed.

(** C5 (as the code has it).  When the typed path has found no callback
    (for every feed other than order updates it is never tried), the last
    lookup is made under the derived key, which carries the coin and user
    suffixes of the payload and is the bare channel label exactly when
    the payload has neither; the callback found there is called with the
    raw payload, and the message is dropped exactly when that lookup
    fails. *)
Theorem last_lookup_uses_derived_key (order : list (string * Callback))
    (doc : json) (response : WsResponse) (api : WebSocketAPI) :
  unmarshal_WsResponse doc = Some response →
  Channel response ≠ "post" → Channel response ≠ "subscriptionResponse" →
  typed_lookup order response (dispatch_channelKey response) api = None →
  processMessage order (Some doc) api
  = Returns api
      (match handlers api !! dispatch_channelKey response with
       | Some handler => Some (handler, ArgData (Data response))
       | None => None
       end)
  ∧ (dispatch_channelKey response = Channel response
     ↔ get_string "coin" (as_map (Some (Data response))) = None
       ∧ get_string "user" (as_map (Some (Data response))) = None)
  ∧ (processMessage order (Some doc) api = Returns api None
     ↔ handlers api !! dispatch_channelKey response = None).
Proof.
  intros Hu Hp Hs Htyped.
  assert (Hrun : processMessage order (Some doc) api
    = Returns api
        (match handlers api !! dispatch_channelKey response with
         | Some handler => Some (handler, ArgData (Data response))
         | None => None
         end)).
  { rewrite (processMessage_feed order doc response api Hu Hp Hs), Htyped.
    by destruct (handlers api !! dispatch_channelKey response). }
  split; [exact Hrun|]. split; [apply dispatch_channelKey_bare_iff|].
  rewrite Hrun. by destruct (handlers api !! dispatch_channelKey response).
Qed.

Lemma last_lookup_uses_derived_key_witness :
  let api := set_handlers {[ "l2Book-ETH" := 3%nat ]}
    (Connect (DialOk 7%nat) (NewWebSocketAPI "m" "t" true)).1 in
  let data := JObject [("coin", JString "ETH"); ("time", JNumber (QArith_base.inject_Z 1))] in
  let doc := JObject [("channel", JString "l2Book"); ("data", data)] in
  processMessage [("l2Book-ETH", 3%nat)] (Some doc) api
  = Returns api (Some (3%nat, ArgData data)).
Proof.
  intros api data doc.
  apply (last_lookup_uses_derived_key [("l2Book-ETH", 3%nat)] doc
           {| Channel := "l2Book"; Data := data |} api).
  - reflexivity.
  - discriminate.
  - discriminate.
  - reflexivity.
Defined.

(** C5 as stated fails: a callback is registered under the bare label
    "l2Book", the payload has a coin, no lookup is made under the bare
    label and the message is dropped. *)
Lemma bare_label_not_looked_up :
  let s := {| Type_ := "l2Book"; User := ""; Coin := ""; Interval := "";
              NSigFigs := 0; Mantissa := 0; AggregateByTime := false; Dex := "" |} in
  let api := (Subscribe (DialOk 7%nat) None s 3%nat (NewWebSocketAPI "m" "t" true)).1 in
  let doc := JObject [("channel", JString "l2Book");
                      ("data", JObject [("coin", JString "ETH")])] in
  (Channel <$> unmarshal_WsResponse doc) = Some "l2Book"
  ∧ handlers api !! "l2Book" = Some 3%nat
  ∧ processMessage (map_to_list (handlers api)) (Some doc) api = Returns api None.
Proof. repeat split; by vm_compute. Qed.

(** *** Keys built in the two orders *)

Lemma dash_position (u c x y : string) :
  no_dash u = true → no_dash c = true →
  u +:+ "-" +:+ x = c +:+ "-" +:+ y → u = c.
Proof.
  revert c. induction u as [|a u IH]; intros [|b c] Hu Hc H; [done| | |].
  - change (String "-"%char x = String b (c +:+ "-" +:+ y)) in H.
    injection H as <- _. by simpl in Hc.
  - change (String a (u +:+ "-" +:+ x) = String "-"%char y) in H.
    injection H as -> _. by simpl in Hu.
  - change (String a (u +:+ "-" +:+ x) = String b (c +:+ "-" +:+ y)) in H.
    injection H as -> H. simpl in Hu, Hc.
    apply andb_true_iff in Hu as [_ Hu]. apply andb_true_iff in Hc as [_ Hc].
    f_equal. by eapply IH.
Qed.

Lemma Subscribe_channelKey_user_coin (s : Subscription) :
  User s ≠ "" → Coin s ≠ "" →
  Subscribe_channelKey s
  = Type_ s +:+ "-" +:+ User s +:+ "-" +:+ Coin s +:+ segment (Interval s).
Proof.
  intros HU HC. rewrite Subscribe_channelKey_spec.
  unfold spec_channel_key, segment.
  rewrite (decide_False (P := User s = "")) by done.
  rewrite (decide_False (P := Coin s = "")) by done.
  by rewrite !append_assoc.
Qed.

(** When user and coin differ and contain no dash, the key stored by
    [Subscribe] is not the key the reader derives. *)
Lemma keys_differ (s : Subscription) :
  User s ≠ "" → Coin s ≠ "" → User s ≠ Coin s →
  no_dash (User s) = true → no_dash (Coin s) = true →
  Subscribe_channelKey s ≠ Type_ s +:+ "-" +:+ Coin s +:+ "-" +:+ User s.
Proof.
  intros HU HC Hne Hdu Hdc.
  rewrite Subscribe_channelKey_user_coin by done. intros H.
  apply (inj (String.append (Type_ s))) in H.
  apply (inj (String.append "-")) in H.
  apply Hne. apply (dash_position _ _ _ _ Hdu Hdc H).
Qed.

Lemma process_post_no_call doc api api' call :
  process_post doc api = Returns api' call → call = None.
Proof.
  rewrite process_post_unfold.
  destruct (decode_post doc) as [[id responseObj]|]; [|by intros [= _ <-]].
  destruct (postHandlers api !! id) as [ch|]; [|by intros [= _ <-]].
  destruct (chans api !! ch) as [c|]; [|done].
  destruct (chan_send _ c); [|done..]. by intros [= _ <-].
Qed.

(** C8 (as the code has it).  A subscription with user and coin is stored
    under type-user-coin (and the interval, if any); a message of that
    topic whose payload carries the same coin and user is looked up under
    type-coin-user.  When the two keys differ as strings and the topic is
    not order updates, the lookup is not affected by the subscription: a
    callback that is registered nowhere else is never called. *)
Theorem user_coin_subscription_not_found (dial : DialResult)
    (write_r : option error) (s : Subscription) (cb : Callback)
    (order : list (string * Callback)) (doc : json) (response : WsResponse)
    (api : WebSocketAPI) :
  User s ≠ "" → Coin s ≠ "" →
  connected api = true ∨ (∃ c, dial = DialOk c) →
  unmarshal_WsResponse doc = Some response →
  Channel response = Type_ s →
  get_string "coin" (as_map (Some (Data response))) = Some (Coin s) →
  get_string "user" (as_map (Some (Data response))) = Some (User s) →
  Type_ s ≠ "orderUpdates" →
  Subscribe_channelKey s ≠ dispatch_channelKey response →
  (∀ k, handlers api !! k ≠ Some cb) →
  let api' := (Subscribe dial write_r s cb api).1 in
  handlers api' !! Subscribe_channelKey s = Some cb
  ∧ Subscribe_channelKey s
    = Type_ s +:+ "-" +:+ User s +:+ "-" +:+ Coin s +:+ segment (Interval s)
  ∧ dispatch_channelKey response = Type_ s +:+ "-" +:+ Coin s +:+ "-" +:+ User s
  ∧ handlers api' !! dispatch_channelKey response
    = handlers api !! dispatch_channelKey response
  ∧ ∀ api'' arg, processMessage order (Some doc) api' ≠ Returns api'' (Some (cb, arg)).
Proof.
  intros HU HC Hconn Hu Hch Hcoin Huser Hnot Hkeys Hfresh api'.
  assert (Hh : handlers api' = <[Subscribe_channelKey s := cb]> (handlers api))
    by by apply Subscribe_handlers.
  assert (Hsame : handlers api' !! dispatch_channelKey response
                  = handlers api !! dispatch_channelKey response)
    by (rewrite Hh; by apply lookup_insert_ne).
  split; [by rewrite Hh, lookup_insert_eq|].
  split; [by apply Subscribe_channelKey_user_coin|].
  split; [rewrite <- Hch; by apply dispatch_channelKey_coin_user|].
  split; [done|].
  intros api'' arg Hrun. unfold processMessage in Hrun. rewrite Hu in Hrun.
  destruct (String.eqb (Channel response) "post").
  { by apply process_post_no_call in Hrun. }
  destruct (String.eqb (Channel response) "subscriptionResponse"); [done|].
  unfold typed_lookup in Hrun.
  rewrite Hch in Hrun at 1.
  apply String.eqb_neq in Hnot. rewrite Hnot, Hsame in Hrun.
  destruct (handlers api !! dispatch_channelKey response) as [h|] eqn:E; [|done].
  injection Hrun as _ -> _. by apply (Hfresh (dispatch_channelKey response)).
Qed.

Lemma user_coin_subscription_not_found_witness :
  let s := {| Type_ := "activeAssetData"; User := "0xabc"; Coin := "ETH";
              Interval := ""; NSigFigs := 0; Mantissa := 0;
              AggregateByTime := false; Dex := "" |} in
  let api := (Connect (DialOk 7%nat) (NewWebSocketAPI "m" "t" true)).1 in
  let data := JObject [("user", JString "0xabc"); ("coin", JString "ETH")] in
  let doc := JObject [("channel", JString "activeAssetData"); ("data", data)] in
  let api' := (Subscribe (DialOk 8%nat) None s 9%nat api).1 in
  handlers api' !! "activeAssetData-0xabc-ETH" = Some 9%nat
  ∧ ∀ api'' arg,
      processMessage (map_to_list (handlers api')) (Some doc) api'
      ≠ Returns api'' (Some (9%nat, arg)).
Proof.
  intros s api data doc api'.
  destruct (user_coin_subscription_not_found (DialOk 8%nat) None s 9%nat
              (map_to_list (handlers api')) doc
              {| Channel := "activeAssetData"; Data := data |} api)
    as (Hstored & _ & _ & _ & Hnever).
  - discriminate.
  - discriminate.
  - left. reflexivity.
  - reflexivity.
  - reflexivity.
  - reflexivity.
  - reflexivity.
  - discriminate.
  - vm_compute. discriminate.
  - intros k. vm_compute. discriminate.
  - split; [exact Hstored|exact Hnever].
Defined.

(** C8 as stated fails in two ways: when user and coin are the same
    string the two keys coincide and the callback is called; and for order
    updates the prefix scan finds the key stored by [Subscribe]. *)
Lemma user_coin_subscription_found :
  let s1 := {| Type_ := "activeAssetData"; User := "ETH"; Coin := "ETH";
               Interval := ""; NSigFigs := 0; Mantissa := 0;
               AggregateByTime := false; Dex := "" |} in
  let d1 := JObject [("coin", JString "ETH"); ("user", JString "ETH")] in
  let doc1 := JObject [("channel", JString "activeAssetData"); ("data", d1)] in
  let api1 := (Subscribe (DialOk 7%nat) None s1 9%nat (NewWebSocketAPI "m" "t" true)).1 in
  let s2 := {| Type_ := "orderUpdates"; User := "0xabc"; Coin := "ETH";
               Interval := ""; NSigFigs := 0; Mantissa := 0;
               AggregateByTime := false; Dex := "" |} in
  let d2 := JObject [("coin", JString "ETH"); ("user", JString "0xabc")] in
  let doc2 := JObject [("channel", JString "orderUpdates"); ("data", d2)] in
  let api2 := (Subscribe (DialOk 7%nat) None s2 9%nat (NewWebSocketAPI "m" "t" true)).1 in
  processMessage (map_to_list (handlers api1)) (Some doc1) api1
    = Returns api1 (Some (9%nat, ArgData d1))
  ∧ Subscribe_channelKey s2 = "orderUpdates-0xabc-ETH"
  ∧ (dispatch_channelKey <$> unmarshal_WsResponse doc2) = Some "orderUpdates-ETH-0xabc"
  ∧ processMessage (map_to_list (handlers api2)) (Some doc2) api2
    = Returns api2 (Some (9%nat, ArgOrders d2)).
Proof. repeat split; by vm_compute. Qed.

(** * Further properties *)

(** ** Invariants of the reachable states *)

Lemma reachable_invariant (P : WebSocketAPI → Prop) :
  (∀ m t b, P (NewWebSocketAPI m t b)) →
  (∀ api api', step api api' → P api → P api') →
  ∀ api, reachable api → P api.
Proof.
  intros Hinit Hstep api (m & t & b & Hrtc).
  revert api Hrtc. apply rtc_ind_r; [apply Hinit|].
  intros y z _ Hyz IH. by eapply Hstep.
Qed.

Lemma Connect_fields dial api :
  let api' := (Connect dial api).1 in
  handlers api' = handlers api ∧ postHandlers api' = postHandlers api
  ∧ chans api' = chans api ∧ idCounter api' = idCounter api
  ∧ sent api' = sent api.
Proof.
  unfold Connect. destruct (connected api); [done|]. by destruct dial.
Qed.

Lemma ensure_connected_fields dial api :
  let api' := ensure_connected dial api in
  handlers api' = handlers api ∧ postHandlers api' = postHandlers api
  ∧ chans api' = chans api ∧ idCounter api' = idCounter api
  ∧ sent api' = sent api.
Proof.
  unfold ensure_connected. destruct (connected api); [done|].
  apply Connect_fields.
Qed.

Lemma ensure_connected_ok dial api :
  connected api = true ∨ (∃ c, dial = DialOk c) →
  (if negb (IsConnected api) then Connect dial api else (api, None))
  = (ensure_connected dial api, None)
  ∧ connected (ensure_connected dial api) = true.
Proof.
  intros H. unfold ensure_connected, IsConnected.
  destruct (connected api) eqn:E; [done|].
  destruct H as [?|[c ->]]; [done|]. unfold Connect. by rewrite E.
Qed.

Lemma Post_issue_sent dial requestType payload api :
  connected api = true ∨ (∃ c, dial = DialOk c) →
  let id := wrap32 (idCounter api + 1) in
  let registered := Post_registered dial api in
  Post_issue dial None None requestType payload api
  = PostWaiting
      (set_sent (sent registered ++
                 [PostMessage "post" id
                    {| req_Type := requestType; req_Payload := payload |}])
         registered)
      id (fresh_ref (chans api)).
Proof.
  intros H id registered.
  destruct (ensure_connected_ok dial api H) as [Heq Hc].
  destruct (ensure_connected_fields dial api) as (_ & _ & Hch & Hid & _).
  unfold Post_issue. rewrite Heq. cbv zeta.
  unfold sendMessage. cbn [connected set_postHandlers set_chans set_idCounter].
  rewrite Hc. cbn [negb]. cbv iota beta.
  subst id registered. unfold Post_registered. cbv zeta.
  cbn [chans set_idCounter]. by rewrite Hch, Hid.
Qed.

Lemma table_ok_empty store : table_ok ∅ store.
Proof.
  split; [intros id ch H|intros id1 id2 ch H]; by rewrite lookup_empty in H.
Qed.

Lemma table_ok_delete id table store :
  table_ok table store → table_ok (delete id table) store.
Proof.
  intros [Hopen Hinj]. split.
  - intros id' ch H. apply lookup_delete_Some in H as [_ H]. by eapply Hopen.
  - intros id1 id2 ch H1 H2.
    apply lookup_delete_Some in H1 as [_ H1].
    apply lookup_delete_Some in H2 as [_ H2]. by eapply Hinj.
Qed.

Lemma table_ok_same_flag r c c' table store :
  table_ok table store → store !! r = Some c → closed c' = closed c →
  table_ok table (<[r := c']> store).
Proof.
  intros [Hopen Hinj] Hr Hflag. split; [|done].
  intros id ch H. destruct (Hopen id ch H) as (c0 & Hc0 & Hc0open).
  destruct (decide (r = ch)) as [->|Hne].
  - exists c'. rewrite lookup_insert_eq. split; [done|].
    rewrite Hr in Hc0. injection Hc0 as ->. by rewrite Hflag.
  - exists c0. by rewrite lookup_insert_ne.
Qed.

Lemma fresh_ref_unused store : store !! fresh_ref store = None.
Proof.
  apply not_elem_of_dom. unfold fresh_ref. apply is_fresh.
Qed.

Lemma table_ok_register id table store :
  table_ok table store →
  table_ok (<[id := fresh_ref store]> table)
           (<[fresh_ref store := make_chan 1]> store).
Proof.
  intros [Hopen Hinj].
  assert (Hnot : ∀ id' , table !! id' ≠ Some (fresh_ref store)).
  { intros id' H. destruct (Hopen id' _ H) as (c & Hc & _).
    by rewrite fresh_ref_unused in Hc. }
  split.
  - intros id' ch H. destruct (decide (id = id')) as [<-|Hne].
    + rewrite lookup_insert_eq in H. injection H as <-.
      exists (make_chan 1). by rewrite lookup_insert_eq.
    + rewrite lookup_insert_ne in H by done.
      destruct (Hopen id' ch H) as (c & Hc & Hco). exists c. split; [|done].
      rewrite lookup_insert_ne; [done|]. intros <-. by apply (Hnot id').
  - intros id1 id2 ch H1 H2.
    destruct (decide (id = id1)) as [<-|Hne1], (decide (id = id2)) as [<-|Hne2];
      [done| | |].
    + rewrite lookup_insert_eq in H1. injection H1 as <-.
      rewrite lookup_insert_ne in H2 by done. by destruct (Hnot id2).
    + rewrite lookup_insert_eq in H2. injection H2 as <-.
      rewrite lookup_insert_ne in H1 by done. by destruct (Hnot id1).
    + rewrite lookup_insert_ne in H1, H2 by done. by eapply Hinj.
Qed.

Lemma sendMessage_table message marshal_r write_r api :
  table_inv api → table_inv (sendMessage message marshal_r write_r api).1.
Proof.
  unfold table_inv.
  by destruct (sendMessage_fields message marshal_r write_r api)
    as (_ & _ & _ & -> & -> & _).
Qed.

Lemma Connect_table dial api : table_inv api → table_inv (Connect dial api).1.
Proof.
  unfold table_inv.
  by destruct (Connect_fields dial api) as (_ & -> & -> & _).
Qed.

Lemma Subscribe_table dial write_r s cb api :
  table_inv api → table_inv (Subscribe dial write_r s cb api).1.
Proof.
  intros Inv. unfold Subscribe, IsConnected.
  pose proof (Connect_table dial api Inv) as Hc.
  destruct (connected api); simpl.
  - by apply sendMessage_table.
  - destruct (Connect dial api) as [a [e|]]; simpl in *; [done|].
    by apply sendMessage_table.
Qed.

Lemma Unsubscribe_table write_r s api :
  table_inv api → table_inv (Unsubscribe write_r s api).1.
Proof.
  intros Inv. unfold Unsubscribe, IsConnected.
  destruct (connected api); simpl; [|done]. by apply sendMessage_table.
Qed.

Lemma Disconnect_table write_r close_r api api' r :
  table_inv api → Disconnect write_r close_r api = Returns api' r → table_inv api'.
Proof.
  unfold table_inv, Disconnect. intros Inv.
  destruct (connected api); simpl; [|by intros [= <- _]].
  destruct (done_closed api); [done|].
  destruct (close_all _ _) as [store|]; [|done].
  destruct (conn api); [|done].
  destruct write_r, close_r; intros [= <- _]; apply table_ok_empty.
Qed.

Lemma Post_registered_table dial api :
  table_inv api → table_inv (Post_registered dial api).
Proof.
  unfold table_inv, Post_registered. intros Inv. cbv zeta.
  cbn [postHandlers chans set_postHandlers set_chans set_idCounter].
  destruct (ensure_connected_fields dial api) as (_ & -> & -> & _).
  by apply table_ok_register.
Qed.

Lemma Post_issue_table dial marshal_r write_r requestType payload api :
  table_inv api →
  match Post_issue dial marshal_r write_r requestType payload api with
  | PostFailed api' _ => table_inv api'
  | PostWaiting api' _ _ => table_inv api'
  end.
Proof.
  intros Inv. unfold Post_issue, IsConnected.
  assert (Hreg := Post_registered_table dial api Inv).
  unfold Post_registered, ensure_connected in Hreg.
  destruct (connected api); cbn [negb].
  - cbv zeta in *.
    match goal with |- context [sendMessage ?m ?x ?y ?z] =>
      pose proof (sendMessage_table m x y z Hreg) as Hs;
      destruct (sendMessage m x y z) as [a4 [e|]] end; simpl in Hs; [|done].
    unfold table_inv in *. by apply table_ok_delete.
  - pose proof (Connect_table dial api Inv) as Hc.
    destruct (Connect dial api) as [a [e|]]; [done|]. cbv zeta in *.
    simpl in Hreg.
    match goal with |- context [sendMessage ?m ?x ?y ?z] =>
      pose proof (sendMessage_table m x y z Hreg) as Hs;
      destruct (sendMessage m x y z) as [a4 [e|]] end; simpl in Hs; [|done].
    unfold table_inv in *. by apply table_ok_delete.
Qed.

Lemma chan_recv_flag c v c' : chan_recv c = Some (v, c') → closed c' = closed c.
Proof.
  unfold chan_recv. destruct (buf c); [|by intros [= _ <-]].
  destruct (closed c) eqn:E; [|done]. intros [= _ <-]. by rewrite E.
Qed.

Lemma Post_select_table id ch elapsed pick api api' r :
  table_inv api → Post_select id ch elapsed pick api = Returns api' r →
  table_inv api'.
Proof.
  unfold table_inv, Post_select. intros Inv. destruct pick.
  - destruct (chans api !! ch) as [c|] eqn:Hc; [|done].
    destruct (chan_recv c) as [[v c']|] eqn:Hr; [|done].
    assert (table_ok (delete id (postHandlers api)) (<[ch := c']> (chans api))).
    { apply table_ok_delete. eapply table_ok_same_flag; [done..|].
      by eapply chan_recv_flag. }
    destruct v; by intros [= <- _].
  - destruct (postTimeout <=? elapsed); [|done].
    intros [= <- _]. by apply table_ok_delete.
Qed.

(** What a frame can do to the client: nothing, or one value appended to
    the buffer of one open channel. *)
Lemma processMessage_effect order message api api' call :
  processMessage order message api = Returns api' call →
  api' = api
  ∨ ∃ id ch c v, message ≫= decode_post = Some (id, v)
      ∧ postHandlers api !! id = Some ch
      ∧ chans api !! ch = Some c ∧ closed c = false
      ∧ (length (buf c) < cap c)%nat
      ∧ api' = set_chans (<[ch := pushed (post_value v) c]> (chans api)) api.
Proof.
  unfold processMessage.
  destruct message as [doc|]; [|intros [= <- _]; by left].
  destruct (unmarshal_WsResponse doc) as [response|]; [|intros [= <- _]; by left].
  destruct (String.eqb (Channel response) "post").
  - rewrite process_post_unfold. simpl.
    destruct (decode_post doc) as [[id responseObj]|]; [|intros [= <- _]; by left].
    destruct (postHandlers api !! id) as [ch|] eqn:Hid; [|intros [= <- _]; by left].
    destruct (chans api !! ch) as [c|] eqn:Hch; [|done].
    unfold chan_send. destruct (closed c) eqn:Hcl; [done|].
    destruct (Nat.ltb_spec (length (buf c)) (cap c)); [|done].
    intros [= <- _]. right. exists id, ch, c, responseObj. by rewrite Hcl.
  - destruct (String.eqb (Channel response) "subscriptionResponse");
      [intros [= <- _]; by left|].
    destruct (typed_lookup _ _ _ _); [intros [= <- _]; by left|].
    destruct (handlers api !! _); intros [= <- _]; by left.
Qed.

Lemma processMessage_table order message api api' call :
  table_inv api → processMessage order message api = Returns api' call →
  table_inv api'.
Proof.
  intros Inv H. apply processMessage_effect in H as [->|H]; [done|].
  destruct H as (id & ch & c & v & _ & _ & Hch & Hcl & _ & ->).
  unfold table_inv. simpl. eapply table_ok_same_flag; [done..|].
  by rewrite Hcl.
Qed.

Lemma readLoop_turn_table order read api api' t :
  table_inv api → readLoop_turn order read api = Returns api' t → table_inv api'.
Proof.
  unfold readLoop_turn. intros Inv.
  destruct (done_closed api); [by intros [= <- _]|].
  destruct read as [e|message]; [by intros [= <- _]|].
  destruct (processMessage order message api) as [a call| |] eqn:E; [|done..].
  intros [= <- _]. by eapply processMessage_table.
Qed.

Lemma step_table api api' : step api api' → table_inv api → table_inv api'.
Proof.
  intros Hstep Inv. destruct Hstep.
  - by apply Connect_table.
  - by eapply Disconnect_table.
  - by apply Subscribe_table.
  - by apply Unsubscribe_table.
  - pose proof (Post_issue_table dial marshal_r write_r requestType payload api Inv) as HP.
    by rewrite H in HP.
  - pose proof (Post_issue_table dial marshal_r write_r requestType payload api Inv) as HP.
    by rewrite H in HP.
  - by eapply Post_select_table.
  - by eapply readLoop_turn_table.
  - match goal with H : post_send _ _ _ = _ |- _ =>
      apply post_send_returns in H as (_ & c & Hc & Hcl & _ & ->) end.
    unfold table_inv. simpl. eapply table_ok_same_flag; [done..|].
    by rewrite Hcl.
Qed.

Lemma reachable_table_inv api : reachable api → table_inv api.
Proof.
  revert api.
  apply (reachable_invariant table_inv); [intros; apply table_ok_empty|apply step_table].
Qed.

Lemma one_parked_eq :
  Post_issue (DialOk 8%nat) None None "action" JNull
    (Connect (DialOk 7%nat) (NewWebSocketAPI "m" "t" true)).1
  = PostWaiting (issued one_parked) 1 0%nat.
Proof. by vm_compute. Qed.

Lemma reachable_one_parked : reachable (issued one_parked).
Proof.
  exists "m", "t", true.
  eapply rtc_l; [apply (step_Connect (DialOk 7%nat))|].
  eapply rtc_l; [|apply rtc_refl].
  eapply step_Post_waiting. exact one_parked_eq.
Qed.

(** X1.  In every reachable state each entry of the correlation table
    names a channel that exists and is open, and no channel is registered
    under two ids. *)
Theorem pending_requests_own_open_channels (api : WebSocketAPI) :
  reachable api →
  (∀ id ch, postHandlers api !! id = Some ch →
     ∃ c, chans api !! ch = Some c ∧ closed c = false)
  ∧ (∀ id1 id2 ch, postHandlers api !! id1 = Some ch →
       postHandlers api !! id2 = Some ch → id1 = id2).
Proof. intros H. exact (reachable_table_inv api H). Qed.

Lemma pending_requests_own_open_channels_witness :
  (∀ id ch, postHandlers (issued one_parked) !! id = Some ch →
     ∃ c, chans (issued one_parked) !! ch = Some c ∧ closed c = false)
  ∧ (∀ id1 id2 ch, postHandlers (issued one_parked) !! id1 = Some ch →
       postHandlers (issued one_parked) !! id2 = Some ch → id1 = id2).
Proof.
  apply (pending_requests_own_open_channels (issued one_parked)).
  exact reachable_one_parked.
Defined.

Lemma Disconnect_connected write_r close_r api :
  connected api = true → done_closed api = false →
  conn_when_connected api → table_inv api →
  ∃ store, close_all (postHandlers api) (chans api) = Some store
    ∧ Disconnect write_r close_r api
      = Returns (Disconnected write_r close_r store api) close_r.
Proof.
  intros Hc Hd Hconn Htab.
  destruct (Hconn Hc) as [cn Hcn].
  destruct (close_all_ok _ _ Htab) as (store & Hclose & _).
  exists store. split; [done|].
  unfold Disconnect, Disconnected. rewrite Hc, Hd. cbn [negb]. cbv zeta.
  cbn [postHandlers chans set_handlers set_done_closed]. rewrite Hclose.
  cbn [conn set_postHandlers set_chans set_handlers set_done_closed]. rewrite Hcn.
  by destruct write_r, close_r.
Qed.

Lemma reachable_conn api : reachable api → conn_when_connected api.
Proof.
  revert api. apply (reachable_invariant conn_when_connected); [done|].
  intros a a'. apply step_preserves.
Qed.

(** X2.  The reader looks the channel of a response up under the lock
    and sends on it after the lock is released.  On a reachable,
    connected client the send does not panic when it follows the lookup
    directly.  When [Disconnect] runs between the two it returns, the
    request is gone from the table, and the channel the reader still
    holds has been closed: the send panics. *)
Theorem reader_send_after_Disconnect_panics (doc : json) (ch : ChanRef) (v : value)
    (write_r close_r : option error) (api : WebSocketAPI) :
  reachable api → connected api = true → done_closed api = false →
  post_lookup doc api = Some (ch, v) →
  (∀ reason, post_send ch v api ≠ Panics reason)
  ∧ ∃ api', Disconnect write_r close_r api = Returns api' close_r
      ∧ reachable api'
      ∧ post_lookup doc api' = None
      ∧ post_send ch v api' = Panics "send on closed channel".
Proof.
  intros Hr Hc Hd Hl.
  pose proof (reachable_table_inv api Hr) as Htab.
  unfold post_lookup in Hl.
  destruct (decode_post doc) as [[id responseObj]|] eqn:Hdec; [|done].
  destruct (postHandlers api !! id) as [ch'|] eqn:Hid; [|done].
  injection Hl as -> <-.
  destruct Htab as [Hopen Hinj].
  destruct (Hopen id ch Hid) as (c & Hch & Hcl).
  split.
  { intros reason. unfold post_send, chan_send. rewrite Hch, Hcl.
    by destruct (_ <? _)%nat. }
  destruct (Disconnect_connected write_r close_r api Hc Hd
              (reachable_conn api Hr) (reachable_table_inv api Hr))
    as (store & Hclose & HD).
  exists (Disconnected write_r close_r store api). split; [done|].
  assert (Hfields : let a := Disconnected write_r close_r store api in
            postHandlers a = ∅ ∧ chans a = store).
  { unfold Disconnected. by destruct write_r, close_r. }
  destruct Hfields as (Hp & Hs).
  split; [|split].
  - destruct Hr as (m & t & b & Hrtc). exists m, t, b.
    eapply rtc_r; [exact Hrtc|]. eapply step_Disconnect. exact HD.
  - unfold post_lookup. by rewrite Hdec, Hp, lookup_empty.
  - destruct (close_all_ok _ _ (conj Hopen Hinj)) as (store' & Hclose' & Hclosed & _).
    rewrite Hclose in Hclose'. injection Hclose' as <-.
    unfold post_send. rewrite Hs, (Hclosed id ch c Hid Hch). reflexivity.
Qed.

Lemma reader_send_after_Disconnect_panics_witness :
  (∀ reason, post_send 0%nat (VData (JString "ok")) (issued one_parked) ≠ Panics reason)
  ∧ ∃ api', Disconnect None None (issued one_parked) = Returns api' None
      ∧ reachable api'
      ∧ post_lookup (reply 1 [("type", JString "info"); ("payload", JString "ok")]) api' = None
      ∧ post_send 0%nat (VData (JString "ok")) api' = Panics "send on closed channel".
Proof.
  apply (reader_send_after_Disconnect_panics
           (reply 1 [("type", JString "info"); ("payload", JString "ok")])
           0%nat (VData (JString "ok")) None None (issued one_parked)).
  - exact reachable_one_parked.
  - by vm_compute.
  - by vm_compute.
  - by vm_compute.
Defined.

(** X3.  On a reachable, connected client whose stop signal is not yet
    set, [Disconnect] returns (it does not panic): it returns the result
    of closing the transport, the registry and the table are empty, the
    stop signal is set, the flag is cleared unless the close failed, the
    counter is kept, and no channel loses a buffered value. *)
Theorem Disconnect_clears_registry_and_table (write_r close_r : option error)
    (api : WebSocketAPI) :
  reachable api → connected api = true → done_closed api = false →
  ∃ api', Disconnect write_r close_r api = Returns api' close_r
    ∧ handlers api' = ∅ ∧ postHandlers api' = ∅
    ∧ done_closed api' = true
    ∧ connected api' = match close_r with Some _ => true | None => false end
    ∧ idCounter api' = idCounter api
    ∧ (∀ ch c, chans api !! ch = Some c →
         ∃ c', chans api' !! ch = Some c' ∧ buf c' = buf c).
Proof.
  intros Hr Hc Hd.
  destruct (Disconnect_connected write_r close_r api Hc Hd
              (reachable_conn api Hr) (reachable_table_inv api Hr))
    as (store & Hclose & HD).
  exists (Disconnected write_r close_r store api). split; [done|].
  assert (Hfields : let a := Disconnected write_r close_r store api in
            handlers a = ∅ ∧ postHandlers a = ∅ ∧ done_closed a = true
            ∧ connected a = match close_r with Some _ => true | None => false end
            ∧ idCounter a = idCounter api ∧ chans a = store).
  { unfold Disconnected. destruct write_r, close_r; simpl; by rewrite ?Hc. }
  destruct Hfields as (-> & -> & -> & -> & -> & ->).
  repeat (split; [done|]).
  intros ch c Hch.
  destruct (close_all_ok _ _ (reachable_table_inv api Hr))
    as (store' & Hclose' & Hclosed & Hkept).
  rewrite Hclose in Hclose'. injection Hclose' as <-.
  destruct (decide (map_Exists (λ _ x, x = ch) (postHandlers api)))
    as [(id & x & Hid & ->)|Hno].
  - exists (closed_copy c). split; [by eapply Hclosed|done].
  - exists c. split; [|done]. rewrite Hkept; [done|].
    intros id Hid. apply Hno. by exists id, ch.
Qed.

Lemma Disconnect_clears_registry_and_table_witness :
  ∃ api', Disconnect None None (issued one_parked) = Returns api' None
    ∧ handlers api' = ∅ ∧ postHandlers api' = ∅
    ∧ done_closed api' = true
    ∧ connected api' = false
    ∧ idCounter api' = idCounter (issued one_parked)
    ∧ (∀ ch c, chans (issued one_parked) !! ch = Some c →
         ∃ c', chans api' !! ch = Some c' ∧ buf c' = buf c).
Proof.
  apply (Disconnect_clears_registry_and_table None None (issued one_parked)).
  - exact reachable_one_parked.
  - reflexivity.
  - reflexivity.
Defined.

(** X4.  When closing the transport fails, [Disconnect] returns the
    error and leaves the flag set with the stop signal already closed; the
    next [Disconnect] then panics on closing the stop signal again. *)
Theorem Disconnect_after_failed_close_panics (write_r write_r' close_r' : option error)
    (e : error) (api : WebSocketAPI) :
  reachable api → connected api = true → done_closed api = false →
  ∃ api', Disconnect write_r (Some e) api = Returns api' (Some e)
    ∧ connected api' = true
    ∧ reachable api'
    ∧ Disconnect write_r' close_r' api' = Panics "close of closed channel".
Proof.
  intros Hr Hc Hd.
  destruct (Disconnect_connected write_r (Some e) api Hc Hd
              (reachable_conn api Hr) (reachable_table_inv api Hr))
    as (store & Hclose & HD).
  exists (Disconnected write_r (Some e) store api). split; [done|].
  assert (Hflags : connected (Disconnected write_r (Some e) store api) = true
                   ∧ done_closed (Disconnected write_r (Some e) store api) = true).
  { unfold Disconnected. destruct write_r; simpl; by rewrite Hc. }
  destruct Hflags as [Hc' Hd']. split; [done|]. split.
  - destruct Hr as (m & t & b & Hrtc). exists m, t, b.
    eapply rtc_r; [done|]. by eapply step_Disconnect.
  - unfold Disconnect. by rewrite Hc', Hd'.
Qed.

Lemma Disconnect_after_failed_close_panics_witness :
  ∃ api', Disconnect None (Some "use of closed network connection") (issued one_parked)
          = Returns api' (Some "use of closed network connection")
    ∧ connected api' = true
    ∧ reachable api'
    ∧ Disconnect None None api' = Panics "close of closed channel".
Proof.
  apply (Disconnect_after_failed_close_panics None None None
           "use of closed network connection" (issued one_parked)).
  - exact reachable_one_parked.
  - reflexivity.
  - reflexivity.
Defined.

(** X5.  A clean [Disconnect] followed by a successful [Connect] gives a
    connected client with the new handle, a fresh stop signal, an empty
    registry and an empty table: earlier subscriptions are not restored.
    The request counter is kept, and one more reader has been started. *)
Theorem reconnect_starts_empty (write_r : option error) (c : Conn)
    (api : WebSocketAPI) :
  reachable api → connected api = true → done_closed api = false →
  ∃ api1 api2, Disconnect write_r None api = Returns api1 None
    ∧ Connect (DialOk c) api1 = (api2, None)
    ∧ connected api2 = true ∧ conn api2 = Some c ∧ done_closed api2 = false
    ∧ handlers api2 = ∅ ∧ postHandlers api2 = ∅
    ∧ idCounter api2 = idCounter api
    ∧ readers api2 = S (readers api).
Proof.
  intros Hr Hc Hd.
  destruct (Disconnect_connected write_r None api Hc Hd
              (reachable_conn api Hr) (reachable_table_inv api Hr))
    as (store & Hclose & HD).
  exists (Disconnected write_r None store api),
    (Connect (DialOk c) (Disconnected write_r None store api)).1.
  split; [done|].
  unfold Connect, Disconnected. destruct write_r; simpl; repeat split; done.
Qed.

Lemma reconnect_starts_empty_witness :
  let s := {| Type_ := "trades"; User := ""; Coin := "BTC"; Interval := "";
              NSigFigs := 0; Mantissa := 0; AggregateByTime := false; Dex := "" |} in
  let api := (Subscribe (DialOk 7%nat) None s 4%nat (NewWebSocketAPI "m" "t" true)).1 in
  ∃ api1 api2, Disconnect None None api = Returns api1 None
    ∧ Connect (DialOk 8%nat) api1 = (api2, None)
    ∧ connected api2 = true ∧ conn api2 = Some 8%nat ∧ done_closed api2 = false
    ∧ handlers api2 = ∅ ∧ postHandlers api2 = ∅
    ∧ idCounter api2 = idCounter api
    ∧ readers api2 = S (readers api).
Proof.
  intros s api.
  apply (reconnect_starts_empty None 8%nat api).
  - exists "m", "t", true. eapply rtc_l; [|apply rtc_refl].
    apply (step_Subscribe (DialOk 7%nat) None s 4%nat).
  - reflexivity.
  - reflexivity.
Defined.

(** *** The request counter *)

Lemma wrap32_range z : int32_range (wrap32 z).
Proof.
  unfold int32_range, wrap32.
  pose proof (Z.mod_pos_bound (z + 2 ^ 31) (2 ^ 32) ltac:(lia)). lia.
Qed.

Lemma wrap32_succ z :
  int32_range z →
  wrap32 (z + 1) = (if decide (z = 2 ^ 31 - 1) then - 2 ^ 31 else z + 1).
Proof.
  unfold int32_range, wrap32. intros Hz. case_decide as E.
  - subst z. reflexivity.
  - rewrite Z.mod_small by lia. lia.
Qed.

Lemma Post_issue_counter dial marshal_r write_r requestType payload api :
  int32_range (idCounter api) →
  match Post_issue dial marshal_r write_r requestType payload api with
  | PostFailed api' _ => int32_range (idCounter api')
  | PostWaiting api' id _ => int32_range (idCounter api') ∧ idCounter api' = id
  end.
Proof.
  intros Inv. unfold Post_issue, IsConnected.
  assert (Hgo : ∀ a,
    match
      (let id := wrap32 (idCounter a + 1) in
       let a1 := set_idCounter id a in
       let responseChan := fresh_ref (chans a1) in
       let a2 := set_chans (<[responseChan := make_chan 1]> (chans a1)) a1 in
       let a3 := set_postHandlers (<[id := responseChan]> (postHandlers a2)) a2 in
       let postMsg :=
         PostMessage "post" id {| req_Type := requestType; req_Payload := payload |} in
       let '(a4, err) := sendMessage postMsg marshal_r write_r a3 in
       match err with
       | Some e => PostFailed (set_postHandlers (delete id (postHandlers a4)) a4) e
       | None => PostWaiting a4 id responseChan
       end)
    with
    | PostFailed api' _ => int32_range (idCounter api')
    | PostWaiting api' id _ => int32_range (idCounter api') ∧ idCounter api' = id
    end).
  { intros a. cbv zeta.
    match goal with |- context [sendMessage ?m ?x ?y ?z] =>
      destruct (sendMessage_fields m x y z) as (_ & _ & _ & _ & _ & Hid);
      destruct (sendMessage m x y z) as [a4 [e|]] end; simpl in *; rewrite Hid.
    - apply wrap32_range.
    - split; [apply wrap32_range|done]. }
  destruct (connected api) eqn:E; cbn [negb]; [apply Hgo|].
  destruct (Connect_fields dial api) as (_ & _ & _ & Hid & _).
  destruct (Connect dial api) as [a [e|]]; simpl in *; [by rewrite Hid|apply Hgo].
Qed.

Lemma step_counter api api' :
  step api api' → int32_range (idCounter api) → int32_range (idCounter api').
Proof.
  intros Hstep Inv. destruct Hstep.
  - by destruct (Connect_fields dial api) as (_ & _ & _ & -> & _).
  - revert H. unfold Disconnect.
    destruct (connected api); simpl; [|by intros [= <- _]].
    destruct (done_closed api); [done|].
    destruct (close_all _ _); [|done]. destruct (conn api); [|done].
    destruct write_r, close_r; by intros [= <- _].
  - unfold Subscribe, IsConnected.
    destruct (Connect_fields dial api) as (_ & _ & _ & Hid & _).
    destruct (connected api); cbn [negb].
    + match goal with |- context [sendMessage ?m ?x ?y ?z] =>
        by destruct (sendMessage_fields m x y z) as (_ & _ & _ & _ & _ & ->) end.
    + destruct (Connect dial api) as [a [e|]]; simpl in *; [by rewrite Hid|].
      match goal with |- context [sendMessage ?m ?x ?y ?z] =>
        destruct (sendMessage_fields m x y z) as (_ & _ & _ & _ & _ & ->) end.
      simpl. by rewrite Hid.
  - unfold Unsubscribe, IsConnected. destruct (connected api); [|done].
    cbn [negb].
    match goal with |- context [sendMessage ?m ?x ?y ?z] =>
      by destruct (sendMessage_fields m x y z) as (_ & _ & _ & _ & _ & ->) end.
  - pose proof (Post_issue_counter dial marshal_r write_r requestType payload api Inv) as HP.
    by rewrite H in HP.
  - pose proof (Post_issue_counter dial marshal_r write_r requestType payload api Inv) as HP.
    rewrite H in HP. by destruct HP.
  - revert H. unfold Post_select. destruct pick.
    + destruct (chans api !! ch) as [c|]; [|done].
      destruct (chan_recv c) as [[[e|j] c']|]; [| |done]; by intros [= <- _].
    + destruct (postTimeout <=? elapsed); [|done]. by intros [= <- _].
  - revert H1. unfold readLoop_turn.
    destruct (done_closed api); [by intros [= <- _]|].
    destruct read as [e|message]; [by intros [= <- _]|].
    destruct (processMessage order message api) as [a call| |] eqn:E; [|done..].
    intros [= <- _].
    apply processMessage_effect in E as [->|(?&?&?&?&_&_&_&_&_&->)]; done.
  - match goal with H : post_send _ _ _ = _ |- _ =>
      apply post_send_returns in H as (_ & c & _ & _ & _ & ->) end.
    exact Inv.
Qed.

Lemma reachable_counter api : reachable api → int32_range (idCounter api).
Proof.
  revert api.
  apply (reachable_invariant (λ a, int32_range (idCounter a))); [|apply step_counter].
  intros. unfold int32_range. simpl. lia.
Qed.

(** X6.  Two requests issued one after the other get ids in the range of
    int32, the second being the successor of the first (the least int32
    after the greatest), different ids and different channels, and both
    are registered, each with its own empty channel of capacity one. *)
Theorem consecutive_posts_have_separate_slots
    dial1 dial2 marshal1 marshal2 write1 write2 type1 type2 payload1 payload2
    (api api1 api2 : WebSocketAPI) (id1 id2 : Z) (ch1 ch2 : ChanRef) :
  reachable api →
  Post_issue dial1 marshal1 write1 type1 payload1 api = PostWaiting api1 id1 ch1 →
  Post_issue dial2 marshal2 write2 type2 payload2 api1 = PostWaiting api2 id2 ch2 →
  int32_range id1 ∧ int32_range id2
  ∧ id2 = (if decide (id1 = 2 ^ 31 - 1) then - 2 ^ 31 else id1 + 1)
  ∧ id1 ≠ id2 ∧ ch1 ≠ ch2
  ∧ postHandlers api2 !! id1 = Some ch1 ∧ postHandlers api2 !! id2 = Some ch2
  ∧ chans api2 !! ch1 = Some (make_chan 1) ∧ chans api2 !! ch2 = Some (make_chan 1).
Proof.
  intros Hr H1 H2.
  pose proof (Post_issue_counter dial1 marshal1 write1 type1 payload1 api
                (reachable_counter api Hr)) as HC1.
  rewrite H1 in HC1. destruct HC1 as [Hrange1 Hid1].
  pose proof (Post_issue_counter dial2 marshal2 write2 type2 payload2 api1 Hrange1) as HC2.
  rewrite H2 in HC2. destruct HC2 as [Hrange2 Hid2].
  rewrite Hid1 in Hrange1. rewrite Hid2 in Hrange2.
  destruct (Post_issue_waiting _ _ _ _ _ _ _ _ _ H1) as [Ht1 Hs1].
  destruct (Post_issue_waiting _ _ _ _ _ _ _ _ _ H2) as [Ht2 Hs2].
  assert (Hshape : id2 = wrap32 (id1 + 1) ∧ ch2 = fresh_ref (chans api1)
                   ∧ postHandlers api2 = <[id2 := ch2]> (postHandlers api1)
                   ∧ chans api2 = <[ch2 := make_chan 1]> (chans api1)).
  { revert H2. unfold Post_issue.
    destruct (if negb (IsConnected api1) then Connect dial2 api1 else (api1, None))
      as [a [e|]] eqn:Ea; [done|].
    assert (Ha : idCounter a = idCounter api1 ∧ chans a = chans api1
                 ∧ postHandlers a = postHandlers api1).
    { unfold IsConnected in Ea. destruct (connected api1); [by injection Ea as <-|].
      destruct (Connect_fields dial2 api1) as (_ & Hp & Hc & Hi & _).
      cbn [negb] in Ea. rewrite Ea in Hp, Hc, Hi. done. }
    destruct Ha as (Hi & Hc & Hp). cbv zeta.
    match goal with |- context [sendMessage ?m ?x ?y ?z] =>
      destruct (sendMessage_fields m x y z) as (_ & _ & _ & Hp' & Hc' & _);
      destruct (sendMessage m x y z) as [a4 [e|]] end; [done|].
    intros [= <- <- <-]. simpl in Hp', Hc'. rewrite Hp', Hc', Hi, Hc, Hp, Hid1.
    done. }
  destruct Hshape as (Hid & Hch & Hp & Hc).
  assert (Hne : id1 ≠ id2).
  { rewrite Hid, wrap32_succ by done. case_decide; unfold int32_range in *; lia. }
  assert (Hnec : ch1 ≠ ch2).
  { intros <-. rewrite Hch in Hs1. by rewrite fresh_ref_unused in Hs1. }
  split; [done|]. split; [done|].
  split; [by rewrite Hid, wrap32_succ|].
  split; [done|]. split; [done|].
  split; [rewrite Hp; by rewrite lookup_insert_ne|].
  split; [done|].
  split; [rewrite Hc; by rewrite lookup_insert_ne|done].
Qed.

Lemma two_parked_eq :
  Post_issue (DialOk 8%nat) None None "action" JNull (issued one_parked)
  = PostWaiting (issued two_parked) 2 1%nat.
Proof. by vm_compute. Qed.

Lemma reachable_two_parked : reachable (issued two_parked).
Proof.
  destruct reachable_one_parked as (m & t & b & Hrtc). exists m, t, b.
  eapply rtc_r; [exact Hrtc|]. eapply step_Post_waiting. exact two_parked_eq.
Qed.

Lemma consecutive_posts_have_separate_slots_witness :
  int32_range 1 ∧ int32_range 2
  ∧ 2 = (if decide (1 = 2 ^ 31 - 1) then - 2 ^ 31 else 1 + 1)
  ∧ 1 ≠ 2 ∧ 0%nat ≠ 1%nat
  ∧ postHandlers (issued two_parked) !! 1 = Some 0%nat
  ∧ postHandlers (issued two_parked) !! 2 = Some 1%nat
  ∧ chans (issued two_parked) !! 0%nat = Some (make_chan 1)
  ∧ chans (issued two_parked) !! 1%nat = Some (make_chan 1).
Proof.
  exact (consecutive_posts_have_separate_slots
           (DialOk 8%nat) (DialOk 8%nat) None None None None "action" "action"
           JNull JNull (Connect (DialOk 7%nat) (NewWebSocketAPI "m" "t" true)).1
           (issued one_parked) (issued two_parked) 1 2 0%nat 1%nat
           reachable_after_Connect one_parked_eq two_parked_eq).
Defined.

(** ** The request protocol *)

Lemma process_post_delivers doc id responseObj ch api :
  decode_post doc = Some (id, responseObj) →
  postHandlers api !! id = Some ch →
  chans api !! ch = Some (make_chan 1) →
  process_post doc api
  = Returns (set_chans (<[ch := pushed (post_value responseObj) (make_chan 1)]>
                          (chans api)) api) None.
Proof. intros Hd Hid Hch. rewrite process_post_unfold. by rewrite Hd, Hid, Hch. Qed.

Lemma process_post_full doc id responseObj ch v api :
  decode_post doc = Some (id, responseObj) →
  postHandlers api !! id = Some ch →
  chans api !! ch = Some (pushed v (make_chan 1)) →
  process_post doc api = Blocks.
Proof. intros Hd Hid Hch. rewrite process_post_unfold. by rewrite Hd, Hid, Hch. Qed.

Lemma Post_select_receives id ch v elapsed store api :
  chans api = <[ch := pushed v (make_chan 1)]> store →
  Post_select id ch elapsed RecvResponse api
  = Returns (set_postHandlers (delete id (postHandlers api))
               (set_chans (<[ch := make_chan 1]> store) api))
            (Post_result v).
Proof.
  intros Hs. unfold Post_select. rewrite Hs, lookup_insert_eq.
  unfold chan_recv, pushed, make_chan; simpl.
  rewrite insert_insert_eq. by destruct v.
Qed.

(** One request from its registration to its return. *)
Lemma Post_exchange order doc response responseObj elapsed api id ch :
  postHandlers api !! id = Some ch →
  chans api !! ch = Some (make_chan 1) →
  unmarshal_WsResponse doc = Some response → Channel response = "post" →
  decode_post doc = Some (id, responseObj) →
  let api2 := set_chans (<[ch := pushed (post_value responseObj) (make_chan 1)]>
                           (chans api)) api in
  let api3 := set_postHandlers (delete id (postHandlers api2))
                (set_chans (<[ch := make_chan 1]> (chans api)) api2) in
  processMessage order (Some doc) api = Returns api2 None
  ∧ Post_select id ch elapsed RecvResponse api2 = Returns api3 (Post_result (post_value responseObj))
  ∧ postHandlers api3 !! id = None
  ∧ processMessage order (Some doc) api3 = Returns api3 None.
Proof.
  intros Hid Hch Hu Hc Hd api2 api3.
  split; [rewrite (processMessage_post order doc response api Hu Hc);
          by apply (process_post_delivers doc id)|].
  split; [by apply (Post_select_receives id ch _ elapsed (chans api) api2)|].
  assert (Hgone : postHandlers api3 !! id = None) by apply lookup_delete_eq.
  split; [done|].
  rewrite (processMessage_post order doc response api3 Hu Hc).
  by eapply process_post_absent.
Qed.

Lemma post_value_success responseObj :
  get_string "type" (Some responseObj) ≠ Some "error" →
  post_value responseObj = VData (default JNull (obj_get "payload" responseObj)).
Proof.
  intros H. unfold post_value.
  destruct (get_string "type" (Some responseObj)) as [t|]; simpl; [|done].
  destruct (String.eqb_spec t "error") as [->|]; done.
Qed.

Lemma post_value_error responseObj :
  get_string "type" (Some responseObj) = Some "error" →
  post_value responseObj
  = VError match get_string "payload" (Some responseObj) with
           | Some msg => if decide (msg = "") then "unknown error" else msg
           | None => "unknown error"
           end.
Proof.
  intros H. unfold post_value. rewrite H.
  destruct (get_string "payload" (Some responseObj)) as [msg|]; simpl; [|done].
  destruct (String.eqb_spec msg "") as [->|E]; case_decide; done.
Qed.

(** X7.  A request and its response: the reader puts the payload of a
    non-error response on the channel of the request and calls nothing,
    the parked [Post] returns that payload (nil when the response has
    none) with a nil error, the id is gone from the table, and the same
    response arriving again is dropped. *)
Theorem Post_returns_the_payload dial marshal_r write_r requestType payload
    (order : list (string * Callback)) (doc : json) (response : WsResponse)
    (responseObj : list (string * json)) (elapsed : Z)
    (api api1 : WebSocketAPI) (id : Z) (ch : ChanRef) :
  Post_issue dial marshal_r write_r requestType payload api = PostWaiting api1 id ch →
  unmarshal_WsResponse doc = Some response → Channel response = "post" →
  decode_post doc = Some (id, responseObj) →
  get_string "type" (Some responseObj) ≠ Some "error" →
  ∃ api2 api3,
    processMessage order (Some doc) api1 = Returns api2 None
    ∧ Post_select id ch elapsed RecvResponse api2
      = Returns api3 (VData (default JNull (obj_get "payload" responseObj)), None)
    ∧ postHandlers api3 !! id = None
    ∧ processMessage order (Some doc) api3 = Returns api3 None.
Proof.
  intros Hissue Hu Hc Hd Htype.
  destruct (Post_issue_waiting _ _ _ _ _ _ _ _ _ Hissue) as [Hid Hch].
  destruct (Post_exchange order doc response responseObj elapsed api1 id ch
              Hid Hch Hu Hc Hd) as (H1 & H2 & H3 & H4).
  rewrite post_value_success in H1, H2 by done.
  do 2 eexists. split; [exact H1|]. split; [exact H2|]. split; [exact H3|].
  by rewrite post_value_success in H4 by done.
Qed.

Lemma Post_returns_the_payload_witness :
  let obj := [("type", JString "action"); ("payload", JString "ok")] in
  ∃ api2 api3,
    processMessage [] (Some (reply 1 obj)) (issued one_parked) = Returns api2 None
    ∧ Post_select 1 0%nat 5 RecvResponse api2 = Returns api3 (VData (JString "ok"), None)
    ∧ postHandlers api3 !! 1 = None
    ∧ processMessage [] (Some (reply 1 obj)) api3 = Returns api3 None.
Proof.
  intros obj.
  apply (Post_returns_the_payload (DialOk 8%nat) None None "action" JNull []
           (reply 1 obj) {| Channel := "post";
                            Data := JObject [("id", JNumber (QArith_base.inject_Z 1)); ("response", JObject obj)] |}
           obj 5 (Connect (DialOk 7%nat) (NewWebSocketAPI "m" "t" true)).1
           (issued one_parked) 1 0%nat).
  - exact one_parked_eq.
  - reflexivity.
  - reflexivity.
  - reflexivity.
  - discriminate.
Defined.

(** X8.  A response of type "error" makes the parked [Post] return a nil
    payload and an error carrying the payload string of the response, or
    "unknown error" when that string is empty, missing or not a string. *)
Theorem Post_returns_the_server_error dial marshal_r write_r requestType payload
    (order : list (string * Callback)) (doc : json) (response : WsResponse)
    (responseObj : list (string * json)) (elapsed : Z)
    (api api1 : WebSocketAPI) (id : Z) (ch : ChanRef) :
  Post_issue dial marshal_r write_r requestType payload api = PostWaiting api1 id ch →
  unmarshal_WsResponse doc = Some response → Channel response = "post" →
  decode_post doc = Some (id, responseObj) →
  get_string "type" (Some responseObj) = Some "error" →
  ∃ api2 api3,
    processMessage order (Some doc) api1 = Returns api2 None
    ∧ Post_select id ch elapsed RecvResponse api2
      = Returns api3
          (nil_value,
           Some match get_string "payload" (Some responseObj) with
                | Some msg => if decide (msg = "") then "unknown error" else msg
                | None => "unknown error"
                end)
    ∧ postHandlers api3 !! id = None.
Proof.
  intros Hissue Hu Hc Hd Htype.
  destruct (Post_issue_waiting _ _ _ _ _ _ _ _ _ Hissue) as [Hid Hch].
  destruct (Post_exchange order doc response responseObj elapsed api1 id ch
              Hid Hch Hu Hc Hd) as (H1 & H2 & H3 & _).
  rewrite post_value_error in H1, H2 by done.
  do 2 eexists. split; [exact H1|]. split; [exact H2|exact H3].
Qed.

Lemma Post_returns_the_server_error_witness :
  let obj := [("type", JString "error"); ("payload", JNumber (QArith_base.inject_Z 429))] in
  ∃ api2 api3,
    processMessage [] (Some (reply 1 obj)) (issued one_parked) = Returns api2 None
    ∧ Post_select 1 0%nat 5 RecvResponse api2
      = Returns api3 (nil_value, Some "unknown error")
    ∧ postHandlers api3 !! 1 = None.
Proof.
  intros obj.
  apply (Post_returns_the_server_error (DialOk 8%nat) None None "action" JNull []
           (reply 1 obj) {| Channel := "post";
                            Data := JObject [("id", JNumber (QArith_base.inject_Z 1)); ("response", JObject obj)] |}
           obj 5 (Connect (DialOk 7%nat) (NewWebSocketAPI "m" "t" true)).1
           (issued one_parked) 1 0%nat).
  - exact one_parked_eq.
  - reflexivity.
  - reflexivity.
  - reflexivity.
  - reflexivity.
Defined.

(** X9.  A second response for an id whose first response has not been
    received yet finds the one-slot channel full: the reader cannot
    proceed, and the frames behind it are not read. *)
Theorem second_response_before_receive_blocks_reader
    dial marshal_r write_r requestType payload
    (order order' : list (string * Callback)) (doc doc' : json)
    (response response' : WsResponse) (responseObj responseObj' : list (string * json))
    (read : ReadResult) (api api1 : WebSocketAPI) (id : Z) (ch : ChanRef) :
  Post_issue dial marshal_r write_r requestType payload api = PostWaiting api1 id ch →
  done_closed api1 = false →
  unmarshal_WsResponse doc = Some response → Channel response = "post" →
  decode_post doc = Some (id, responseObj) →
  unmarshal_WsResponse doc' = Some response' → Channel response' = "post" →
  decode_post doc' = Some (id, responseObj') →
  ∃ api2,
    processMessage order (Some doc) api1 = Returns api2 None
    ∧ processMessage order' (Some doc') api2 = Blocks
    ∧ readLoop_turn order' (ReadOk (Some doc')) api2 = Blocks
    ∧ readLoop [(order', ReadOk (Some doc')); (order, read)] api2 = Blocks.
Proof.
  intros Hissue Hdone Hu Hc Hd Hu' Hc' Hd'.
  destruct (Post_issue_waiting _ _ _ _ _ _ _ _ _ Hissue) as [Hid Hch].
  eexists. split.
  { rewrite (processMessage_post order doc response api1 Hu Hc).
    by apply (process_post_delivers doc id). }
  assert (Hblock : processMessage order' (Some doc')
            (set_chans (<[ch := pushed (post_value responseObj) (make_chan 1)]>
                          (chans api1)) api1) = Blocks).
  { rewrite (processMessage_post order' doc' response' _ Hu' Hc').
    eapply (process_post_full doc' id); [done..|]. simpl. apply lookup_insert_eq. }
  split; [done|].
  assert (Hturn : readLoop_turn order' (ReadOk (Some doc'))
            (set_chans (<[ch := pushed (post_value responseObj) (make_chan 1)]>
                          (chans api1)) api1) = Blocks).
  { unfold readLoop_turn. cbn [done_closed set_chans]. by rewrite Hdone, Hblock. }
  split; [done|]. cbn [readLoop]. by rewrite Hturn.
Qed.

Lemma second_response_before_receive_blocks_reader_witness :
  let obj := [("type", JString "action"); ("payload", JString "ok")] in
  ∃ api2,
    processMessage [] (Some (reply 1 obj)) (issued one_parked) = Returns api2 None
    ∧ processMessage [] (Some (reply 1 obj)) api2 = Blocks
    ∧ readLoop_turn [] (ReadOk (Some (reply 1 obj))) api2 = Blocks
    ∧ readLoop [([], ReadOk (Some (reply 1 obj))); ([], ReadErr "eof")] api2 = Blocks.
Proof.
  intros obj.
  apply (second_response_before_receive_blocks_reader
           (DialOk 8%nat) None None "action" JNull [] []
           (reply 1 obj) (reply 1 obj)
           {| Channel := "post";
              Data := JObject [("id", JNumber (QArith_base.inject_Z 1)); ("response", JObject obj)] |}
           {| Channel := "post";
              Data := JObject [("id", JNumber (QArith_base.inject_Z 1)); ("response", JObject obj)] |}
           obj obj (ReadErr "eof")
           (Connect (DialOk 7%nat) (NewWebSocketAPI "m" "t" true)).1
           (issued one_parked) 1 0%nat).
  - exact one_parked_eq.
  - reflexivity.
  - reflexivity.
  - reflexivity.
  - reflexivity.
  - reflexivity.
  - reflexivity.
  - reflexivity.
Defined.

Lemma sendMessage_fails message marshal_r write_r e api :
  connected api = true →
  marshal_r = Some e ∨ (marshal_r = None ∧ write_r = Some e) →
  sendMessage message marshal_r write_r api = (api, Some e).
Proof.
  intros Hc H. unfold sendMessage. rewrite Hc.
  destruct H as [->|[-> ->]]; done.
Qed.

(** X10.  When marshalling or writing the request fails, [Post] returns
    that error; the id has been consumed, the table entry has been removed
    again, the channel made for the request stays in the store, and
    nothing has been sent. *)
Theorem Post_send_failure_consumes_id dial marshal_r write_r (e : error)
    requestType payload (api : WebSocketAPI) :
  connected api = true ∨ (∃ c, dial = DialOk c) →
  marshal_r = Some e ∨ (marshal_r = None ∧ write_r = Some e) →
  let id := wrap32 (idCounter api + 1) in
  ∃ api', Post_issue dial marshal_r write_r requestType payload api = PostFailed api' e
    ∧ idCounter api' = id
    ∧ postHandlers api' = delete id (postHandlers api)
    ∧ chans api' = <[fresh_ref (chans api) := make_chan 1]> (chans api)
    ∧ sent api' = sent api ∧ handlers api' = handlers api.
Proof.
  intros Hconn Hfail id.
  destruct (ensure_connected_ok dial api Hconn) as [Heq Hc].
  destruct (ensure_connected_fields dial api) as (Hh & Hp & Hch & Hid & Hs).
  unfold Post_issue. rewrite Heq. cbv zeta.
  rewrite (sendMessage_fails _ marshal_r write_r e) by done.
  eexists. split; [reflexivity|]. simpl.
  rewrite Hh, Hp, Hch, Hid, Hs. subst id.
  repeat split; try done. by rewrite delete_insert_eq.
Qed.

Lemma Post_send_failure_consumes_id_witness :
  let api := (Connect (DialOk 7%nat) (NewWebSocketAPI "m" "t" true)).1 in
  ∃ api', Post_issue (DialOk 8%nat) None (Some "broken pipe") "action" JNull api
          = PostFailed api' "broken pipe"
    ∧ idCounter api' = wrap32 (idCounter api + 1)
    ∧ postHandlers api' = delete (wrap32 (idCounter api + 1)) (postHandlers api)
    ∧ chans api' = <[fresh_ref (chans api) := make_chan 1]> (chans api)
    ∧ sent api' = sent api ∧ handlers api' = handlers api.
Proof.
  intros api.
  apply (Post_send_failure_consumes_id (DialOk 8%nat) None (Some "broken pipe")
           "broken pipe" "action" JNull api).
  - left. reflexivity.
  - right. split; reflexivity.
Defined.

(** X11.  In a reachable state a response for one id calls nothing and
    leaves the channel of every other pending id, the table and the
    registry as they were. *)
Theorem response_reaches_only_its_request (order : list (string * Callback))
    (doc : json) (response : WsResponse) (responseObj : list (string * json))
    (api api' : WebSocketAPI) (call : option Call) (id other : Z) (ch : ChanRef) :
  reachable api →
  unmarshal_WsResponse doc = Some response → Channel response = "post" →
  decode_post doc = Some (id, responseObj) →
  other ≠ id →
  postHandlers api !! other = Some ch →
  processMessage order (Some doc) api = Returns api' call →
  call = None
  ∧ chans api' !! ch = chans api !! ch
  ∧ postHandlers api' = postHandlers api
  ∧ handlers api' = handlers api.
Proof.
  intros Hr Hu Hc Hd Hne Hother Hrun.
  destruct (reachable_table_inv api Hr) as [_ Hinj].
  destruct (processMessage_fields _ _ _ _ _ Hrun) as (_ & _ & Hh & Hp).
  split.
  { rewrite (processMessage_post order doc response api Hu Hc) in Hrun.
    by eapply process_post_no_call. }
  split; [|done].
  apply processMessage_effect in Hrun as [->|Hrun]; [done|].
  destruct Hrun as (id0 & ch0 & c & v & Hd0 & Hid0 & _ & _ & _ & ->).
  simpl in Hd0. rewrite Hd in Hd0. injection Hd0 as <- <-.
  simpl. apply lookup_insert_ne. intros <-. apply Hne. by eapply Hinj.
Qed.

Lemma response_reaches_only_its_request_witness :
  let obj := [("type", JString "action"); ("payload", JString "ok")] in
  let api' := set_chans (<[1%nat := pushed (post_value obj) (make_chan 1)]>
                           (chans (issued two_parked))) (issued two_parked) in
  processMessage [] (Some (reply 2 obj)) (issued two_parked) = Returns api' None
  ∧ (None : option Call) = None
  ∧ chans api' !! 0%nat = chans (issued two_parked) !! 0%nat
  ∧ postHandlers api' = postHandlers (issued two_parked)
  ∧ handlers api' = handlers (issued two_parked).
Proof.
  intros obj api'.
  assert (Hrun : processMessage [] (Some (reply 2 obj)) (issued two_parked)
                 = Returns api' None) by (by vm_compute).
  split; [exact Hrun|].
  apply (response_reaches_only_its_request [] (reply 2 obj)
           {| Channel := "post";
              Data := JObject [("id", JNumber (QArith_base.inject_Z 2)); ("response", JObject obj)] |}
           obj (issued two_parked) api' None 2 1 0%nat).
  - exact reachable_two_parked.
  - reflexivity.
  - reflexivity.
  - reflexivity.
  - discriminate.
  - by vm_compute.
  - exact Hrun.
Defined.

(** ** Subscriptions and dispatch *)

Lemma segment_empty : segment "" = "".
Proof. reflexivity. Qed.

Lemma segment_field_of (f : string) :
  match field_of f with Some x => "-" +:+ x | None => "" end = segment f.
Proof. unfold field_of, segment. by case_decide. Qed.

Lemma append_nonempty_ne (a b : string) : b ≠ "" → a +:+ b ≠ a.
Proof.
  intros Hb H. apply (f_equal String.length) in H.
  rewrite length_append in H. destruct b; [done|]. simpl in H. lia.
Qed.

Lemma segment_nonempty (f : string) : f ≠ "" → segment f ≠ "".
Proof. intros H. unfold segment. rewrite decide_False by done. done. Qed.

(** The key the reader derives from a payload that mirrors the user and
    coin of a descriptor of which at most one is set. *)
Lemma mirrored_dispatch_key (s : Subscription) (response : WsResponse) :
  User s = "" ∨ Coin s = "" →
  Channel response = Type_ s →
  get_string "coin" (as_map (Some (Data response))) = field_of (Coin s) →
  get_string "user" (as_map (Some (Data response))) = field_of (User s) →
  dispatch_channelKey response = Type_ s +:+ segment (User s) +:+ segment (Coin s).
Proof.
  intros Hone Hch Hcoin Huser. unfold dispatch_channelKey, Sprintf_dash.
  rewrite Hcoin, Huser, Hch. unfold field_of, segment.
  destruct Hone as [->| ->].
  - rewrite (decide_True (P := "" = "")) by done.
    case_decide; [by rewrite !append_empty_r|done].
  - rewrite (decide_True (P := "" = "")) by done.
    case_decide; by rewrite ?append_empty_r.
Qed.

Lemma processMessage_plain order doc response api :
  unmarshal_WsResponse doc = Some response →
  Channel response ≠ "post" → Channel response ≠ "subscriptionResponse" →
  Channel response ≠ "orderUpdates" →
  processMessage order (Some doc) api =
    Returns api
      match handlers api !! dispatch_channelKey response with
      | Some handler => Some (handler, ArgData (Data response))
      | None => None
      end.
Proof.
  intros Hu Hp Hs Ho.
  rewrite (processMessage_feed order doc response api Hu Hp Hs).
  unfold typed_lookup. apply String.eqb_neq in Ho. rewrite Ho.
  by destruct (handlers api !! _).
Qed.

(** A subscription stored under another key than the one a message is
    looked up under does not receive the message. *)
Lemma other_key_not_called dial write_r s cb order doc response api :
  connected api = true ∨ (∃ c, dial = DialOk c) →
  unmarshal_WsResponse doc = Some response →
  Channel response ≠ "orderUpdates" →
  Subscribe_channelKey s ≠ dispatch_channelKey response →
  (∀ k, handlers api !! k ≠ Some cb) →
  ∀ api'' arg,
    processMessage order (Some doc) (Subscribe dial write_r s cb api).1
    ≠ Returns api'' (Some (cb, arg)).
Proof.
  intros Hconn Hu Ho Hkeys Hfresh api'' arg Hrun.
  pose proof (Subscribe_handlers dial write_r s cb api Hconn) as Hh.
  destruct (String.eqb_spec (Channel response) "post") as [Hp|Hp].
  { rewrite (processMessage_post order doc response _ Hu Hp) in Hrun.
    by apply process_post_no_call in Hrun. }
  destruct (String.eqb_spec (Channel response) "subscriptionResponse") as [Hs|Hs].
  { unfold processMessage in Hrun. rewrite Hu, Hs in Hrun. simpl in Hrun. done. }
  rewrite (processMessage_plain order doc response _ Hu Hp Hs Ho) in Hrun.
  rewrite Hh, lookup_insert_ne in Hrun by done.
  destruct (handlers api !! dispatch_channelKey response) as [h|] eqn:E; [|done].
  injection Hrun as _ -> _. by apply (Hfresh (dispatch_channelKey response)).
Qed.

Lemma mirrored_payload_delivered (dial : DialResult)
    (write_r : option error) (s : Subscription) (cb : Callback)
    (order : list (string * Callback)) (doc : json) (response : WsResponse)
    (api : WebSocketAPI) :
  connected api = true ∨ (∃ c, dial = DialOk c) →
  Interval s = "" → User s = "" ∨ Coin s = "" →
  Type_ s ≠ "post" → Type_ s ≠ "subscriptionResponse" → Type_ s ≠ "orderUpdates" →
  unmarshal_WsResponse doc = Some response →
  Channel response = Type_ s →
  get_string "coin" (as_map (Some (Data response))) = field_of (Coin s) →
  get_string "user" (as_map (Some (Data response))) = field_of (User s) →
  let api' := (Subscribe dial write_r s cb api).1 in
  dispatch_channelKey response = Subscribe_channelKey s
  ∧ processMessage order (Some doc) api'
    = Returns api' (Some (cb, ArgData (Data response))).
Proof.
  intros Hconn HI Hone Hp Hs Ho Hu Hch Hcoin Huser api'.
  assert (Hkey : dispatch_channelKey response = Subscribe_channelKey s).
  { rewrite (mirrored_dispatch_key s response) by done.
    rewrite Subscribe_channelKey_spec. unfold spec_channel_key.
    by rewrite HI, segment_empty, append_empty_r. }
  split; [done|]. rewrite <- Hch in Hp, Hs, Ho.
  rewrite (processMessage_plain order doc response api' Hu Hp Hs Ho).
  unfold api'. rewrite Subscribe_handlers by done.
  by rewrite Hkey, lookup_insert_eq.
Qed.

(** X12.  A descriptor without interval and with at most one of user and
    coin is stored under the key the reader derives from a payload that
    carries the same coin and user: such a message on the topic of the
    descriptor calls the subscribed callback with the raw payload. *)
Theorem subscription_receives_mirrored_payload (dial : DialResult)
    (write_r : option error) (s : Subscription) (cb : Callback)
    (order : list (string * Callback)) (doc : json) (response : WsResponse)
    (api : WebSocketAPI) :
  connected api = true ∨ (∃ c, dial = DialOk c) →
  Interval s = "" → User s = "" ∨ Coin s = "" →
  Type_ s ≠ "post" → Type_ s ≠ "subscriptionResponse" → Type_ s ≠ "orderUpdates" →
  unmarshal_WsResponse doc = Some response →
  Channel response = Type_ s →
  get_string "coin" (as_map (Some (Data response))) = field_of (Coin s) →
  get_string "user" (as_map (Some (Data response))) = field_of (User s) →
  let api' := (Subscribe dial write_r s cb api).1 in
  dispatch_channelKey response = Subscribe_channelKey s
  ∧ processMessage order (Some doc) api'
    = Returns api' (Some (cb, ArgData (Data response))).
Proof. apply mirrored_payload_delivered. Qed.

Lemma subscription_receives_mirrored_payload_witness :
  let s := {| Type_ := "userFills"; User := "0xabc"; Coin := ""; Interval := "";
              NSigFigs := 0; Mantissa := 0; AggregateByTime := true; Dex := "" |} in
  let data := JObject [("isSnapshot", JBool true); ("user", JString "0xabc");
                       ("fills", JArray [])] in
  let doc := JObject [("channel", JString "userFills"); ("data", data)] in
  let api' := (Subscribe (DialOk 7%nat) None s 4%nat (NewWebSocketAPI "m" "t" true)).1 in
  dispatch_channelKey {| Channel := "userFills"; Data := data |} = Subscribe_channelKey s
  ∧ processMessage [] (Some doc) api' = Returns api' (Some (4%nat, ArgData data)).
Proof.
  intros s data doc api'.
  apply (subscription_receives_mirrored_payload (DialOk 7%nat) None s 4%nat []
           doc {| Channel := "userFills"; Data := data |}
           (NewWebSocketAPI "m" "t" true)).
  - right. exists 7%nat. reflexivity.
  - reflexivity.
  - right. reflexivity.
  - discriminate.
  - discriminate.
  - discriminate.
  - reflexivity.
  - reflexivity.
  - reflexivity.
  - reflexivity.
Defined.

Lemma fieldless_payload_missed (dial : DialResult)
    (write_r : option error) (s : Subscription) (cb : Callback)
    (order : list (string * Callback)) (doc : json) (response : WsResponse)
    (api : WebSocketAPI) :
  connected api = true ∨ (∃ c, dial = DialOk c) →
  User s ≠ "" ∨ Coin s ≠ "" ∨ Interval s ≠ "" →
  Type_ s ≠ "orderUpdates" →
  unmarshal_WsResponse doc = Some response →
  Channel response = Type_ s →
  get_string "coin" (as_map (Some (Data response))) = None →
  get_string "user" (as_map (Some (Data response))) = None →
  (∀ k, handlers api !! k ≠ Some cb) →
  let api' := (Subscribe dial write_r s cb api).1 in
  handlers api' !! Subscribe_channelKey s = Some cb
  ∧ dispatch_channelKey response = Type_ s
  ∧ (∀ api'' arg, processMessage order (Some doc) api' ≠ Returns api'' (Some (cb, arg)))
  ∧ (handlers api !! Type_ s = None → Type_ s ≠ "post" →
     processMessage order (Some doc) api' = Returns api' None).
Proof.
  intros Hconn Hseg Ho Hu Hch Hcoin Huser Hfresh api'.
  assert (Hkey : dispatch_channelKey response = Type_ s).
  { rewrite <- Hch. by apply dispatch_channelKey_bare. }
  assert (Hne : Subscribe_channelKey s ≠ dispatch_channelKey response).
  { rewrite Hkey, Subscribe_channelKey_spec. unfold spec_channel_key.
    apply append_nonempty_ne. intros H.
    assert (Hlen : ∀ a b, a +:+ b = "" → a = "" ∧ b = "").
    { intros [|x a] b; [done|]. intros E. discriminate E. }
    apply Hlen in H as [H1 H]. apply Hlen in H as [H2 H3].
    destruct Hseg as [H'|[H'|H']]; by apply (segment_nonempty _ H'). }
  split; [unfold api'; rewrite Subscribe_handlers by done; apply lookup_insert_eq|].
  split; [done|]. split.
  - apply (other_key_not_called dial write_r s cb order doc response);
      try done. by rewrite Hch.
  - intros Hnone Hp.
    destruct (String.eqb_spec (Type_ s) "subscriptionResponse") as [Hs|Hs].
    { unfold processMessage. rewrite Hu, Hch, Hs. done. }
    rewrite <- Hch in Hp, Hs, Ho.
    rewrite (processMessage_plain order doc response api' Hu Hp Hs Ho).
    unfold api'. rewrite Subscribe_handlers by done.
    rewrite lookup_insert_ne by done. by rewrite Hkey, Hnone.
Qed.

(** X13.  A descriptor with a user, a coin or an interval is stored under
    a key longer than its topic, while a payload with neither a coin nor a
    user string is looked up under the bare topic: the callback is not
    called, and the message is dropped when nothing is registered under
    the bare topic. *)
Theorem fieldless_payload_misses_segmented_subscription (dial : DialResult)
    (write_r : option error) (s : Subscription) (cb : Callback)
    (order : list (string * Callback)) (doc : json) (response : WsResponse)
    (api : WebSocketAPI) :
  connected api = true ∨ (∃ c, dial = DialOk c) →
  User s ≠ "" ∨ Coin s ≠ "" ∨ Interval s ≠ "" →
  Type_ s ≠ "orderUpdates" →
  unmarshal_WsResponse doc = Some response →
  Channel response = Type_ s →
  get_string "coin" (as_map (Some (Data response))) = None →
  get_string "user" (as_map (Some (Data response))) = None →
  (∀ k, handlers api !! k ≠ Some cb) →
  let api' := (Subscribe dial write_r s cb api).1 in
  handlers api' !! Subscribe_channelKey s = Some cb
  ∧ dispatch_channelKey response = Type_ s
  ∧ (∀ api'' arg, processMessage order (Some doc) api' ≠ Returns api'' (Some (cb, arg)))
  ∧ (handlers api !! Type_ s = None → Type_ s ≠ "post" →
     processMessage order (Some doc) api' = Returns api' None).
Proof. apply fieldless_payload_missed. Qed.

Lemma fieldless_payload_misses_segmented_subscription_witness :
  let s := {| Type_ := "notification"; User := "0xabc"; Coin := ""; Interval := "";
              NSigFigs := 0; Mantissa := 0; AggregateByTime := false; Dex := "" |} in
  let data := JObject [("notification", JString "liquidated")] in
  let doc := JObject [("channel", JString "notification"); ("data", data)] in
  let api' := (Subscribe (DialOk 7%nat) None s 4%nat (NewWebSocketAPI "m" "t" true)).1 in
  handlers api' !! Subscribe_channelKey s = Some 4%nat
  ∧ dispatch_channelKey {| Channel := "notification"; Data := data |} = "notification"
  ∧ (∀ api'' arg, processMessage [] (Some doc) api' ≠ Returns api'' (Some (4%nat, arg)))
  ∧ (handlers (NewWebSocketAPI "m" "t" true) !! "notification" = None →
     "notification" ≠ "post" →
     processMessage [] (Some doc) api' = Returns api' None).
Proof.
  intros s data doc api'.
  apply (fieldless_payload_misses_segmented_subscription (DialOk 7%nat) None s 4%nat []
           doc {| Channel := "notification"; Data := data |}
           (NewWebSocketAPI "m" "t" true)).
  - right. exists 7%nat. reflexivity.
  - left. discriminate.
  - discriminate.
  - reflexivity.
  - reflexivity.
  - reflexivity.
  - reflexivity.
  - intros k. vm_compute. discriminate.
Defined.

Lemma interval_key_missed (dial : DialResult)
    (write_r : option error) (s : Subscription) (cb : Callback)
    (order : list (string * Callback)) (doc : json) (response : WsResponse)
    (api : WebSocketAPI) :
  connected api = true ∨ (∃ c, dial = DialOk c) →
  Interval s ≠ "" → User s = "" ∨ Coin s = "" →
  Type_ s ≠ "orderUpdates" →
  unmarshal_WsResponse doc = Some response →
  Channel response = Type_ s →
  get_string "coin" (as_map (Some (Data response))) = field_of (Coin s) →
  get_string "user" (as_map (Some (Data response))) = field_of (User s) →
  (∀ k, handlers api !! k ≠ Some cb) →
  let api' := (Subscribe dial write_r s cb api).1 in
  Subscribe_channelKey s = dispatch_channelKey response +:+ "-" +:+ Interval s
  ∧ ∀ api'' arg, processMessage order (Some doc) api' ≠ Returns api'' (Some (cb, arg)).
Proof.
  intros Hconn HI Hone Ho Hu Hch Hcoin Huser Hfresh api'.
  assert (Hkey : Subscribe_channelKey s
                 = dispatch_channelKey response +:+ "-" +:+ Interval s).
  { rewrite (mirrored_dispatch_key s response) by done.
    rewrite Subscribe_channelKey_spec. unfold spec_channel_key.
    rewrite !append_assoc. unfold segment at 3. by rewrite decide_False. }
  split; [done|].
  apply (other_key_not_called dial write_r s cb order doc response);
    try done; [by rewrite Hch|].
  rewrite Hkey. by apply append_nonempty_ne.
Qed.

(** X14.  The reader never appends an interval: a descriptor with an
    interval and at most one of user and coin is stored under the derived
    key followed by a dash and the interval, so a payload that mirrors its
    coin and user does not reach its callback. *)
Theorem interval_subscription_misses_mirrored_payload (dial : DialResult)
    (write_r : option error) (s : Subscription) (cb : Callback)
    (order : list (string * Callback)) (doc : json) (response : WsResponse)
    (api : WebSocketAPI) :
  connected api = true ∨ (∃ c, dial = DialOk c) →
  Interval s ≠ "" → User s = "" ∨ Coin s = "" →
  Type_ s ≠ "orderUpdates" →
  unmarshal_WsResponse doc = Some response →
  Channel response = Type_ s →
  get_string "coin" (as_map (Some (Data response))) = field_of (Coin s) →
  get_string "user" (as_map (Some (Data response))) = field_of (User s) →
  (∀ k, handlers api !! k ≠ Some cb) →
  let api' := (Subscribe dial write_r s cb api).1 in
  Subscribe_channelKey s = dispatch_channelKey response +:+ "-" +:+ Interval s
  ∧ ∀ api'' arg, processMessage order (Some doc) api' ≠ Returns api'' (Some (cb, arg)).
Proof. apply interval_key_missed. Qed.

Lemma interval_subscription_misses_mirrored_payload_witness :
  let s := {| Type_ := "candle"; User := ""; Coin := "ETH"; Interval := "1m";
              NSigFigs := 0; Mantissa := 0; AggregateByTime := false; Dex := "" |} in
  let data := JObject [("coin", JString "ETH"); ("i", JString "1m")] in
  let doc := JObject [("channel", JString "candle"); ("data", data)] in
  let api' := (Subscribe (DialOk 7%nat) None s 4%nat (NewWebSocketAPI "m" "t" true)).1 in
  Subscribe_channelKey s
  = dispatch_channelKey {| Channel := "candle"; Data := data |} +:+ "-" +:+ "1m"
  ∧ ∀ api'' arg, processMessage [] (Some doc) api' ≠ Returns api'' (Some (4%nat, arg)).
Proof.
  intros s data doc api'.
  apply (interval_subscription_misses_mirrored_payload (DialOk 7%nat) None s 4%nat []
           doc {| Channel := "candle"; Data := data |}
           (NewWebSocketAPI "m" "t" true)).
  - right. exists 7%nat. reflexivity.
  - discriminate.
  - left. reflexivity.
  - discriminate.
  - reflexivity.
  - reflexivity.
  - reflexivity.
  - reflexivity.
  - intros k. vm_compute. discriminate.
Defined.



(** *** Order updates *)

Lemma order_key address :
  Subscribe_channelKey
    {| Type_ := "orderUpdates"; User := address; Coin := ""; Interval := "";
       NSigFigs := 0; Mantissa := 0; AggregateByTime := false; Dex := "" |}
  = "orderUpdates" +:+ segment address.
Proof.
  rewrite Subscribe_channelKey_spec. unfold spec_channel_key. simpl.
  by rewrite segment_empty, !append_empty_r.
Qed.

(** X16.  [SubscribeToOrderUpdates] stores the callback under
    "orderUpdates-" followed by the address.  When no other key extends
    that prefix and nothing is registered under the bare topic, an order
    updates message whose payload has no coin or user string (the venue
    sends an array) has no exact match and reaches the callback through
    the prefix scan, with the decoded orders. *)
Theorem order_updates_reach_the_user_subscription (dial : DialResult)
    (write_r : option error) (address : string) (cb : Callback)
    (order : list (string * Callback)) (doc : json) (response : WsResponse)
    (api : WebSocketAPI) :
  connected api = true ∨ (∃ c, dial = DialOk c) →
  address ≠ "" →
  (∀ hKey h, handlers api !! hKey = Some h → prefix_matches hKey = false) →
  handlers api !! "orderUpdates" = None →
  let api' := (SubscribeToOrderUpdates dial write_r address cb api).1 in
  unmarshal_WsResponse doc = Some response →
  Channel response = "orderUpdates" →
  get_string "coin" (as_map (Some (Data response))) = None →
  get_string "user" (as_map (Some (Data response))) = None →
  order ≡ₚ map_to_list (handlers api') →
  handlers api' !! ("orderUpdates-" +:+ address) = Some cb
  ∧ handlers api' !! dispatch_channelKey response = None
  ∧ processMessage order (Some doc) api'
    = Returns api' (Some (cb, ArgOrders (Data response))).
Proof.
  intros Hconn Ha Hnone Hbare api' Hu Hch Hcoin Huser Hperm.
  assert (Hk : Subscribe_channelKey
                 {| Type_ := "orderUpdates"; User := address; Coin := "";
                    Interval := ""; NSigFigs := 0; Mantissa := 0;
                    AggregateByTime := false; Dex := "" |}
               = "orderUpdates-" +:+ address).
  { rewrite order_key. unfold segment. by rewrite decide_False. }
  assert (Hh : handlers api' = <[("orderUpdates-" +:+ address) := cb]> (handlers api)).
  { unfold api', SubscribeToOrderUpdates. rewrite Subscribe_handlers by done.
    by rewrite Hk. }
  assert (Hm : prefix_matches ("orderUpdates-" +:+ address) = true).
  { apply prefix_matches_iff. by exists address. }
  assert (Hkey : dispatch_channelKey response = "orderUpdates").
  { rewrite <- Hch. by apply dispatch_channelKey_bare. }
  assert (Hexact : handlers api' !! dispatch_channelKey response = None).
  { rewrite Hkey, Hh, lookup_insert_ne; [done|]. intros E.
    apply (f_equal String.length) in E. rewrite length_append in E.
    simpl in E. lia. }
  split; [by rewrite Hh, lookup_insert_eq|]. split; [done|].
  rewrite (processMessage_feed order doc response api' Hu)
    by (rewrite Hch; done).
  unfold typed_lookup. rewrite Hch, Hexact. simpl.
  destruct (prefix_scan order) as [h|] eqn:Hscan.
  - destruct (prefix_scan_Some order h Hscan) as (k & Hin & Hmk).
    apply (range_order (handlers api') order) in Hin; [|done].
    rewrite Hh in Hin. apply lookup_insert_Some in Hin as [[_ <-]|[_ Hin]]; [done|].
    by rewrite (Hnone k h Hin) in Hmk.
  - assert (Hin : ("orderUpdates-" +:+ address, cb) ∈ order).
    { apply (range_order (handlers api') order); [done|].
      by rewrite Hh, lookup_insert_eq. }
    by rewrite (prefix_scan_None order Hscan _ _ Hin) in Hm.
Qed.

Lemma order_updates_reach_the_user_subscription_witness :
  let api' := (SubscribeToOrderUpdates (DialOk 7%nat) None "0xabc" 4%nat
                 (NewWebSocketAPI "m" "t" true)).1 in
  let data := JArray [JObject [("status", JString "open")]] in
  let doc := JObject [("channel", JString "orderUpdates"); ("data", data)] in
  handlers api' !! ("orderUpdates-" +:+ "0xabc") = Some 4%nat
  ∧ handlers api' !! dispatch_channelKey {| Channel := "orderUpdates"; Data := data |}
    = None
  ∧ processMessage (map_to_list (handlers api')) (Some doc) api'
    = Returns api' (Some (4%nat, ArgOrders data)).
Proof.
  intros api' data doc.
  apply (order_updates_reach_the_user_subscription (DialOk 7%nat) None "0xabc" 4%nat
           (map_to_list (handlers api')) doc
           {| Channel := "orderUpdates"; Data := data |}
           (NewWebSocketAPI "m" "t" true)).
  - right. exists 7%nat. reflexivity.
  - discriminate.
  - intros hKey h H. vm_compute in H. discriminate.
  - reflexivity.
  - reflexivity.
  - reflexivity.
  - reflexivity.
  - reflexivity.
  - reflexivity.
Defined.

(** X17.  Frames that are not JSON, that do not decode to an envelope,
    acknowledgements of subscriptions and responses to requests never call
    a callback, whatever is registered, and leave the registry as it
    was; all but a response to a pending request leave the whole client
    unchanged. *)
Theorem reserved_and_malformed_frames_call_nothing
    (order : list (string * Callback)) (api : WebSocketAPI) :
  processMessage order None api = Returns api None
  ∧ (∀ doc, unmarshal_WsResponse doc = None →
       processMessage order (Some doc) api = Returns api None)
  ∧ (∀ doc response, unmarshal_WsResponse doc = Some response →
       Channel response = "subscriptionResponse" →
       processMessage order (Some doc) api = Returns api None)
  ∧ (∀ doc response api' call, unmarshal_WsResponse doc = Some response →
       Channel response = "post" →
       processMessage order (Some doc) api = Returns api' call →
       call = None ∧ handlers api' = handlers api)
  ∧ (∀ doc response, unmarshal_WsResponse doc = Some response →
       Channel response = "post" → decode_post doc = None →
       processMessage order (Some doc) api = Returns api None).
Proof.
  split; [done|]. split.
  { intros doc Hu. unfold processMessage. by rewrite Hu. }
  split.
  { intros doc response Hu Hc. unfold processMessage. by rewrite Hu, Hc. }
  split.
  { intros doc response api' call Hu Hc Hrun.
    destruct (processMessage_fields _ _ _ _ _ Hrun) as (_ & _ & Hh & _).
    split; [|done].
    rewrite (processMessage_post order doc response api Hu Hc) in Hrun.
    by eapply process_post_no_call. }
  intros doc response Hu Hc Hd.
  rewrite (processMessage_post order doc response api Hu Hc).
  rewrite process_post_unfold. by rewrite Hd.
Qed.

Lemma reserved_and_malformed_frames_call_nothing_witness :
  let s := {| Type_ := "subscriptionResponse"; User := ""; Coin := ""; Interval := "";
              NSigFigs := 0; Mantissa := 0; AggregateByTime := false; Dex := "" |} in
  let api := (Subscribe (DialOk 7%nat) None s 4%nat (NewWebSocketAPI "m" "t" true)).1 in
  let doc := JObject [("channel", JString "subscriptionResponse");
                      ("data", JObject [("method", JString "subscribe")])] in
  handlers api !! "subscriptionResponse" = Some 4%nat
  ∧ processMessage [] (Some (JArray [])) api = Returns api None
  ∧ processMessage [] (Some doc) api = Returns api None.
Proof.
  intros s api doc.
  destruct (reserved_and_malformed_frames_call_nothing [] api)
    as (_ & Hbad & Hack & _).
  split; [reflexivity|]. split.
  - apply Hbad. reflexivity.
  - apply (Hack doc {| Channel := "subscriptionResponse";
                       Data := JObject [("method", JString "subscribe")] |});
      reflexivity.
Defined.


(** *** The typed helpers *)

(** X18.  [SubscribeToL2Book], [SubscribeToTrades],
    [SubscribeToActiveAssetCtx] and [SubscribeToBbo] store the callback
    under the topic followed by the coin, and a message of the topic whose
    payload carries that coin (and no user) calls it with the raw
    payload. *)
Theorem coin_feed_delivers_payload_of_its_coin topic helper
    (dial : DialResult) (write_r : option error) (coin : string) (cb : Callback)
    (order : list (string * Callback)) (doc : json) (response : WsResponse)
    (api : WebSocketAPI) :
  (topic, helper) ∈ coin_feeds →
  connected api = true ∨ (∃ c, dial = DialOk c) →
  unmarshal_WsResponse doc = Some response →
  Channel response = topic →
  get_string "coin" (as_map (Some (Data response))) = field_of coin →
  get_string "user" (as_map (Some (Data response))) = None →
  let api' := (helper dial write_r coin cb api).1 in
  handlers api' !! (topic +:+ segment coin) = Some cb
  ∧ processMessage order (Some doc) api'
    = Returns api' (Some (cb, ArgData (Data response))).
Proof.
  intros Hin Hconn Hu Hch Hcoin Huser api'.
  assert (Hgen : ∀ s, Type_ s = topic → User s = "" → Coin s = coin → Interval s = "" →
            helper dial write_r coin cb api = Subscribe dial write_r s cb api →
            topic ≠ "post" → topic ≠ "subscriptionResponse" → topic ≠ "orderUpdates" →
            handlers api' !! (topic +:+ segment coin) = Some cb
            ∧ processMessage order (Some doc) api'
              = Returns api' (Some (cb, ArgData (Data response)))).
  { intros s HT HU HC HI Hdef H1 H2 H3. unfold api'. rewrite Hdef.
    destruct (mirrored_payload_delivered dial write_r s cb order doc response api)
      as [Hkey Hrun]; rewrite ?HT, ?HU, ?HC, ?HI; try done; [by left|].
    split; [|done].
    rewrite Subscribe_handlers by done.
    rewrite Subscribe_channelKey_spec. unfold spec_channel_key.
    rewrite HT, HU, HC, HI, !segment_empty, append_empty_r.
    change ("" +:+ segment coin) with (segment coin). apply lookup_insert_eq. }
  unfold coin_feeds in Hin.
  repeat (apply elem_of_cons in Hin as [[= -> ->]|Hin]);
    [..|by apply elem_of_nil in Hin];
    (eapply Hgen; [..|reflexivity| | |]; try reflexivity; discriminate).
Qed.

Lemma coin_feed_delivers_payload_of_its_coin_witness :
  let data := JObject [("coin", JString "ETH"); ("time", JNumber (QArith_base.inject_Z 1))] in
  let doc := JObject [("channel", JString "bbo"); ("data", data)] in
  let api' := (SubscribeToBbo (DialOk 7%nat) None "ETH" 4%nat
                 (NewWebSocketAPI "m" "t" true)).1 in
  handlers api' !! ("bbo" +:+ segment "ETH") = Some 4%nat
  ∧ processMessage [] (Some doc) api' = Returns api' (Some (4%nat, ArgData data)).
Proof.
  intros data doc api'.
  apply (coin_feed_delivers_payload_of_its_coin "bbo" SubscribeToBbo (DialOk 7%nat)
           None "ETH" 4%nat [] doc {| Channel := "bbo"; Data := data |}
           (NewWebSocketAPI "m" "t" true)).
  - unfold coin_feeds. do 3 right. left.
  - right. exists 7%nat. reflexivity.
  - reflexivity.
  - reflexivity.
  - reflexivity.
  - reflexivity.
Defined.

(** X19.  The helpers that subscribe by user alone (notifications, user
    events, fills, fundings, ledger updates, TWAP slice fills and TWAP
    history) store the callback under the topic followed by the address:
    a message of the topic calls it when the payload carries that user,
    and does not when the payload has no user string. *)
Theorem user_feed_needs_user_in_payload topic helper
    (dial : DialResult) (write_r : option error) (address : string) (cb : Callback)
    (order : list (string * Callback)) (doc : json) (response : WsResponse)
    (api : WebSocketAPI) :
  (topic, helper) ∈ user_feeds →
  connected api = true ∨ (∃ c, dial = DialOk c) →
  address ≠ "" →
  unmarshal_WsResponse doc = Some response →
  Channel response = topic →
  get_string "coin" (as_map (Some (Data response))) = None →
  let api' := (helper dial write_r address cb api).1 in
  handlers api' !! (topic +:+ "-" +:+ address) = Some cb
  ∧ (get_string "user" (as_map (Some (Data response))) = Some address →
     processMessage order (Some doc) api'
     = Returns api' (Some (cb, ArgData (Data response))))
  ∧ (get_string "user" (as_map (Some (Data response))) = None →
     (∀ k, handlers api !! k ≠ Some cb) →
     ∀ api'' arg, processMessage order (Some doc) api' ≠ Returns api'' (Some (cb, arg))).
Proof.
  intros Hin Hconn Ha Hu Hch Hcoin api'.
  assert (Hgen : ∀ s, Type_ s = topic → User s = address → Coin s = "" → Interval s = "" →
            helper dial write_r address cb api = Subscribe dial write_r s cb api →
            topic ≠ "post" → topic ≠ "subscriptionResponse" → topic ≠ "orderUpdates" →
            handlers api' !! (topic +:+ "-" +:+ address) = Some cb
            ∧ (get_string "user" (as_map (Some (Data response))) = Some address →
               processMessage order (Some doc) api'
               = Returns api' (Some (cb, ArgData (Data response))))
            ∧ (get_string "user" (as_map (Some (Data response))) = None →
               (∀ k, handlers api !! k ≠ Some cb) →
               ∀ api'' arg,
                 processMessage order (Some doc) api' ≠ Returns api'' (Some (cb, arg)))).
  { intros s HT HU HC HI Hdef H1 H2 H3. unfold api'. rewrite Hdef.
    split; [|split].
    - rewrite Subscribe_handlers by done.
      rewrite Subscribe_channelKey_spec. unfold spec_channel_key.
      rewrite HT, HU, HC, HI, !segment_empty, !append_empty_r.
      unfold segment. rewrite decide_False by done. apply lookup_insert_eq.
    - intros Huser.
      apply (mirrored_payload_delivered dial write_r s cb order doc response api);
        rewrite ?HT, ?HU, ?HC, ?HI; try done; [by right|].
      unfold field_of. by rewrite decide_False.
    - intros Huser Hfresh.
      apply (fieldless_payload_missed dial write_r s cb order doc response api);
        rewrite ?HT, ?HU; try done. by left. }
  unfold user_feeds in Hin.
  repeat (apply elem_of_cons in Hin as [[= -> ->]|Hin]);
    [..|by apply elem_of_nil in Hin];
    (eapply Hgen; [..|reflexivity| | |]; try reflexivity; discriminate).
Qed.

Lemma user_feed_needs_user_in_payload_witness :
  let data := JObject [("notification", JString "liquidated")] in
  let doc := JObject [("channel", JString "notification"); ("data", data)] in
  let api' := (SubscribeToNotification (DialOk 7%nat) None "0xabc" 4%nat
                 (NewWebSocketAPI "m" "t" true)).1 in
  handlers api' !! ("notification" +:+ "-" +:+ "0xabc") = Some 4%nat
  ∧ ∀ api'' arg, processMessage [] (Some doc) api' ≠ Returns api'' (Some (4%nat, arg)).
Proof.
  intros data doc api'.
  destruct (user_feed_needs_user_in_payload "notification" SubscribeToNotification
              (DialOk 7%nat) None "0xabc" 4%nat [] doc
              {| Channel := "notification"; Data := data |}
              (NewWebSocketAPI "m" "t" true)) as (H1 & _ & H3).
  - unfold user_feeds. left.
  - right. exists 7%nat. reflexivity.
  - discriminate.
  - reflexivity.
  - reflexivity.
  - reflexivity.
  - split; [exact H1|]. apply H3; [reflexivity|].
    intros k. vm_compute. discriminate.
Defined.

(** X20.  [SubscribeToAllMids] stores the callback under "allMids", and
    a message of that topic whose payload has no coin or user string
    calls it with the raw payload. *)
Theorem all_mids_delivered (dial : DialResult) (write_r : option error)
    (cb : Callback) (order : list (string * Callback)) (doc : json)
    (response : WsResponse) (api : WebSocketAPI) :
  connected api = true ∨ (∃ c, dial = DialOk c) →
  unmarshal_WsResponse doc = Some response →
  Channel response = "allMids" →
  get_string "coin" (as_map (Some (Data response))) = None →
  get_string "user" (as_map (Some (Data response))) = None →
  let api' := (SubscribeToAllMids dial write_r cb api).1 in
  handlers api' !! "allMids" = Some cb
  ∧ processMessage order (Some doc) api'
    = Returns api' (Some (cb, ArgData (Data response))).
Proof.
  intros Hconn Hu Hch Hcoin Huser api'. unfold api', SubscribeToAllMids.
  split; [rewrite Subscribe_handlers by done; apply lookup_insert_eq|].
  apply (mirrored_payload_delivered dial write_r _ cb order doc response api);
    try done. by left.
Qed.

Lemma all_mids_delivered_witness :
  let data := JObject [("mids", JObject [("ETH", JString "1700.5")])] in
  let doc := JObject [("channel", JString "allMids"); ("data", data)] in
  let api' := (SubscribeToAllMids (DialOk 7%nat) None 4%nat
                 (NewWebSocketAPI "m" "t" true)).1 in
  handlers api' !! "allMids" = Some 4%nat
  ∧ processMessage [] (Some doc) api' = Returns api' (Some (4%nat, ArgData data)).
Proof.
  intros data doc api'.
  apply (all_mids_delivered (DialOk 7%nat) None 4%nat [] doc
           {| Channel := "allMids"; Data := data |} (NewWebSocketAPI "m" "t" true)).
  - right. exists 7%nat. reflexivity.
  - reflexivity.
  - reflexivity.
  - reflexivity.
  - reflexivity.
Defined.

(** X21.  [SubscribeToCandle] stores the callback under the topic, the
    coin and the interval; a candle message whose payload has no user
    string and whose coin is absent or the subscribed one never calls
    it. *)
Theorem candle_subscription_not_reached (dial : DialResult) (write_r : option error)
    (coin interval : string) (cb : Callback) (order : list (string * Callback))
    (doc : json) (response : WsResponse) (api : WebSocketAPI) :
  connected api = true ∨ (∃ c, dial = DialOk c) →
  interval ≠ "" →
  unmarshal_WsResponse doc = Some response →
  Channel response = "candle" →
  get_string "user" (as_map (Some (Data response))) = None →
  get_string "coin" (as_map (Some (Data response))) = None
  ∨ get_string "coin" (as_map (Some (Data response))) = field_of coin →
  (∀ k, handlers api !! k ≠ Some cb) →
  let api' := (SubscribeToCandle dial write_r coin interval cb api).1 in
  handlers api' !! ("candle" +:+ segment coin +:+ "-" +:+ interval) = Some cb
  ∧ ∀ api'' arg, processMessage order (Some doc) api' ≠ Returns api'' (Some (cb, arg)).
Proof.
  intros Hconn HI Hu Hch Huser Hcoin Hfresh api'. unfold api', SubscribeToCandle.
  split.
  { rewrite Subscribe_handlers by done.
    rewrite Subscribe_channelKey_spec. unfold spec_channel_key.
    cbn [Type_ User Coin Interval].
    assert (segment interval = "-" +:+ interval) as ->
      by (unfold segment; by rewrite decide_False).
    rewrite segment_empty. apply lookup_insert_eq. }
  destruct Hcoin as [Hcoin|Hcoin].
  - destruct (fieldless_payload_missed dial write_r
                {| Type_ := "candle"; User := ""; Coin := coin; Interval := interval;
                   NSigFigs := 0; Mantissa := 0; AggregateByTime := false; Dex := "" |}
                cb order doc response api) as (_ & _ & H & _);
      [done|by right; right|done..|exact H].
  - destruct (interval_key_missed dial write_r
                {| Type_ := "candle"; User := ""; Coin := coin; Interval := interval;
                   NSigFigs := 0; Mantissa := 0; AggregateByTime := false; Dex := "" |}
                cb order doc response api) as (_ & H);
      [done|done|by left|done..|exact H].
Qed.

Lemma candle_subscription_not_reached_witness :
  let data := JObject [("t", JNumber (QArith_base.inject_Z 1)); ("s", JString "ETH"); ("i", JString "1m")] in
  let doc := JObject [("channel", JString "candle"); ("data", data)] in
  let api' := (SubscribeToCandle (DialOk 7%nat) None "ETH" "1m" 4%nat
                 (NewWebSocketAPI "m" "t" true)).1 in
  handlers api' !! ("candle" +:+ segment "ETH" +:+ "-" +:+ "1m") = Some 4%nat
  ∧ ∀ api'' arg, processMessage [] (Some doc) api' ≠ Returns api'' (Some (4%nat, arg)).
Proof.
  intros data doc api'.
  apply (candle_subscription_not_reached (DialOk 7%nat) None "ETH" "1m" 4%nat []
           doc {| Channel := "candle"; Data := data |} (NewWebSocketAPI "m" "t" true)).
  - right. exists 7%nat. reflexivity.
  - discriminate.
  - reflexivity.
  - reflexivity.
  - reflexivity.
  - left. reflexivity.
  - intros k. vm_compute. discriminate.
Defined.

(** ** The reader loop *)

Lemma processMessage_same order message api api' call :
  processMessage order message api = Returns api' call → same_but_chans api api'.
Proof.
  intros H. apply processMessage_effect in H as [->|H]; [done|].
  by destruct H as (?&?&?&?&_&_&_&_&_&->).
Qed.

Lemma readLoop_returns inputs api api' calls :
  readLoop inputs api = Returns api' calls →
  connected api' = false
  ∧ readers api' = Nat.pred (readers api)
  ∧ conn api' = conn api ∧ handlers api' = handlers api
  ∧ postHandlers api' = postHandlers api ∧ idCounter api' = idCounter api
  ∧ done_closed api' = done_closed api ∧ sent api' = sent api.
Proof.
  revert api calls. induction inputs as [|[order read] rest IH]; intros api calls.
  - simpl. destruct (done_closed api) eqn:Hd; [|done].
    intros [= <- _]. simpl. by rewrite Hd.
  - cbn [readLoop]. unfold readLoop_turn.
    destruct (done_closed api) eqn:Hd; [intros [= <- _]; simpl; by rewrite Hd|].
    destruct read as [e|message]; [intros [= <- _]; simpl; by rewrite Hd|].
    destruct (processMessage order message api) as [a call| |] eqn:E; [|done..].
    destruct (readLoop rest a) as [a' calls'| |] eqn:E'; [|done..].
    intros [= <- _].
    destruct (IH _ _ E') as (H1 & H2 & H3 & H4 & H5 & H6 & H7 & H8).
    destruct (processMessage_same _ _ _ _ _ E)
      as (G1 & _ & _ & G4 & G5 & G6 & G7 & G8 & G9).
    by rewrite H1, H2, H3, H4, H5, H6, H7, H8, G1, G4, G5, G6, G7, G8, G9.
Qed.

(** X22.  Whenever [readLoop] returns, the connected flag is false and
    one reader less is running; the handle, the registry, the table, the
    counter, the stop signal and the frames sent are those it started
    with. *)
Theorem readLoop_return_marks_disconnected
    (inputs : list (list (string * Callback) * ReadResult))
    (api api' : WebSocketAPI) (calls : list Call) :
  readLoop inputs api = Returns api' calls →
  connected api' = false
  ∧ readers api' = Nat.pred (readers api)
  ∧ conn api' = conn api ∧ handlers api' = handlers api
  ∧ postHandlers api' = postHandlers api ∧ idCounter api' = idCounter api
  ∧ done_closed api' = done_closed api ∧ sent api' = sent api.
Proof. apply readLoop_returns. Qed.

Lemma readLoop_return_marks_disconnected_witness :
  let s := {| Type_ := "trades"; User := ""; Coin := "BTC"; Interval := "";
              NSigFigs := 0; Mantissa := 0; AggregateByTime := false; Dex := "" |} in
  let api := (Subscribe (DialOk 7%nat) None s 4%nat (NewWebSocketAPI "m" "t" true)).1 in
  let doc := JObject [("channel", JString "trades");
                      ("data", JObject [("coin", JString "BTC")])] in
  let inputs : list (list (string * Callback) * ReadResult) :=
    [([], ReadOk (Some doc)); ([], ReadErr "eof")] in
  let api' := readLoop_exit api in
  connected api' = false
  ∧ readers api' = Nat.pred (readers api)
  ∧ conn api' = conn api ∧ handlers api' = handlers api
  ∧ postHandlers api' = postHandlers api ∧ idCounter api' = idCounter api
  ∧ done_closed api' = done_closed api ∧ sent api' = sent api.
Proof.
  intros s api doc inputs api'.
  apply (readLoop_return_marks_disconnected inputs api api'
           [(4%nat, ArgData (JObject [("coin", JString "BTC")]))]).
  by vm_compute.
Defined.

(** X23.  A failed read ends the loop: the reader returns at once, and
    the frames that would follow are never read. *)
Theorem readLoop_ends_at_read_error
    (frames later : list (list (string * Callback) * ReadResult))
    (order : list (string * Callback)) (e : error) (api : WebSocketAPI) :
  readLoop ((order, ReadErr e) :: later) api = Returns (readLoop_exit api) []
  ∧ readLoop (frames ++ (order, ReadErr e) :: later) api
    = readLoop (frames ++ [(order, ReadErr e)]) api.
Proof.
  split.
  - cbn [readLoop]. unfold readLoop_turn. by destruct (done_closed api).
  - revert api. induction frames as [|[o r] frames IH]; intros api.
    + cbn [app readLoop]. unfold readLoop_turn. by destruct (done_closed api).
    + cbn [app readLoop].
      destruct (readLoop_turn o r api) as [a [call|]| |]; [|done..].
      by rewrite IH.
Qed.

(** X24.  Once the stop signal is set the reader returns without
    reading a frame, clears the connected flag and touches no channel. *)
Theorem readLoop_obeys_stop_signal
    (inputs : list (list (string * Callback) * ReadResult)) (api : WebSocketAPI) :
  done_closed api = true →
  readLoop inputs api = Returns (readLoop_exit api) []
  ∧ connected (readLoop_exit api) = false
  ∧ chans (readLoop_exit api) = chans api.
Proof.
  intros Hd. split; [|done].
  destruct inputs as [|[order read] rest]; cbn [readLoop].
  - by rewrite Hd.
  - unfold readLoop_turn. by rewrite Hd.
Qed.

Lemma readLoop_obeys_stop_signal_witness :
  let api := set_done_closed true (issued one_parked) in
  let doc := reply 1 [("type", JString "action"); ("payload", JString "ok")] in
  readLoop [([], ReadOk (Some doc))] api = Returns (readLoop_exit api) []
  ∧ connected (readLoop_exit api) = false
  ∧ chans (readLoop_exit api) = chans api.
Proof.
  intros api doc.
  apply (readLoop_obeys_stop_signal [([], ReadOk (Some doc))] api).
  reflexivity.
Defined.

Lemma readLoop_feed (cb : Callback)
    (frames : list (list (string * Callback) * json * WsResponse))
    (order : list (string * Callback)) (e : error) (api : WebSocketAPI) :
  done_closed api = false →
  Forall (λ f, processMessage f.1.1 (Some f.1.2) api
               = Returns api (Some (cb, ArgData (Data f.2)))) frames →
  readLoop (feed_inputs frames ++ [(order, ReadErr e)]) api
  = Returns (readLoop_exit api) (feed_calls cb frames).
Proof.
  intros Hd Hall. induction Hall as [|f frames Hf _ IH].
  - cbn. unfold readLoop_turn. by rewrite Hd.
  - cbn [feed_inputs feed_calls map app readLoop]. unfold readLoop_turn at 1.
    rewrite Hd, Hf. fold (feed_inputs frames). rewrite IH. done.
Qed.

(** X25.  After a subscription as in X12, a reader that receives frames
    of the topic with mirrored payloads and then a read error has called
    the callback once per frame, in the order of arrival, with the raw
    payloads, and has returned with the connected flag cleared. *)
Theorem subscriber_gets_every_frame_in_order (dial : DialResult)
    (write_r : option error) (s : Subscription) (cb : Callback)
    (frames : list (list (string * Callback) * json * WsResponse))
    (order : list (string * Callback)) (e : error) (api : WebSocketAPI) :
  connected api = true ∨ (∃ c, dial = DialOk c) →
  Interval s = "" → User s = "" ∨ Coin s = "" →
  Type_ s ≠ "post" → Type_ s ≠ "subscriptionResponse" → Type_ s ≠ "orderUpdates" →
  Forall (λ f, unmarshal_WsResponse f.1.2 = Some f.2
               ∧ Channel f.2 = Type_ s
               ∧ get_string "coin" (as_map (Some (Data f.2))) = field_of (Coin s)
               ∧ get_string "user" (as_map (Some (Data f.2))) = field_of (User s))
         frames →
  let api' := (Subscribe dial write_r s cb api).1 in
  done_closed api' = false →
  readLoop (feed_inputs frames ++ [(order, ReadErr e)]) api'
  = Returns (readLoop_exit api') (feed_calls cb frames).
Proof.
  intros Hconn HI Hone Hp Hs Ho Hall api' Hd.
  apply readLoop_feed; [done|].
  eapply Forall_impl; [exact Hall|].
  intros [[o doc] response] (Hu & Hch & Hcoin & Huser). simpl in *.
  by apply (mirrored_payload_delivered dial write_r s cb o doc response api).
Qed.

Lemma subscriber_gets_every_frame_in_order_witness :
  let s := {| Type_ := "trades"; User := ""; Coin := "BTC"; Interval := "";
              NSigFigs := 0; Mantissa := 0; AggregateByTime := false; Dex := "" |} in
  let d1 := JObject [("coin", JString "BTC"); ("px", JString "1")] in
  let d2 := JObject [("coin", JString "BTC"); ("px", JString "2")] in
  let f1 := ([], JObject [("channel", JString "trades"); ("data", d1)],
             {| Channel := "trades"; Data := d1 |}) in
  let f2 := ([], JObject [("channel", JString "trades"); ("data", d2)],
             {| Channel := "trades"; Data := d2 |}) in
  let api' := (Subscribe (DialOk 7%nat) None s 4%nat (NewWebSocketAPI "m" "t" true)).1 in
  readLoop (feed_inputs [f1; f2] ++ [([], ReadErr "eof")]) api'
  = Returns (readLoop_exit api') [(4%nat, ArgData d1); (4%nat, ArgData d2)].
Proof.
  intros s d1 d2 f1 f2 api'.
  apply (subscriber_gets_every_frame_in_order (DialOk 7%nat) None s 4%nat [f1; f2]
           [] "eof" (NewWebSocketAPI "m" "t" true)).
  - right. exists 7%nat. reflexivity.
  - reflexivity.
  - left. reflexivity.
  - discriminate.
  - discriminate.
  - discriminate.
  - repeat constructor.
  - reflexivity.
Defined.

(** ** Connecting on demand *)

(** X26.  When the client is not connected and dialling fails, [Connect],
    [Subscribe] and [Post] return the dial error and leave the client as
    it was: no callback is registered and no id is consumed. *)
Theorem failed_dial_leaves_client_untouched (e : error)
    (marshal_r write_r : option error) (s : Subscription) (cb : Callback)
    (requestType : string) (payload : json) (api : WebSocketAPI) :
  connected api = false →
  Connect (DialErr e) api = (api, Some e)
  ∧ Subscribe (DialErr e) write_r s cb api = (api, Some e)
  ∧ Post_issue (DialErr e) marshal_r write_r requestType payload api = PostFailed api e.
Proof.
  intros H. unfold Subscribe, Post_issue, IsConnected, Connect. by rewrite H.
Qed.

Lemma failed_dial_leaves_client_untouched_witness :
  let api := NewWebSocketAPI "m" "t" true in
  let s := {| Type_ := "trades"; User := ""; Coin := "BTC"; Interval := "";
              NSigFigs := 0; Mantissa := 0; AggregateByTime := false; Dex := "" |} in
  Connect (DialErr "refused") api = (api, Some "refused")
  ∧ Subscribe (DialErr "refused") None s 4%nat api = (api, Some "refused")
  ∧ Post_issue (DialErr "refused") None None "action" JNull api
    = PostFailed api "refused".
Proof.
  intros api s.
  apply (failed_dial_leaves_client_untouched "refused" None None s 4%nat "action"
           JNull api).
  reflexivity.
Defined.

(** X27.  On a client that is not connected, [Unsubscribe] and
    [sendMessage] fail with "not connected" and change nothing, while
    [Subscribe] connects first: the client is connected with the new
    handle and a fresh stop signal, one more reader runs, and the callback
    is added to the registry kept from before. *)
Theorem only_Subscribe_and_Post_reconnect (c : Conn) (write_r : option error)
    (s : Subscription) (cb : Callback) (message : OutMessage)
    (marshal_r : option error) (api : WebSocketAPI) :
  connected api = false →
  Unsubscribe write_r s api = (api, Some "not connected")
  ∧ sendMessage message marshal_r write_r api = (api, Some "not connected")
  ∧ (let api' := (Subscribe (DialOk c) write_r s cb api).1 in
     connected api' = true ∧ conn api' = Some c ∧ done_closed api' = false
     ∧ readers api' = S (readers api)
     ∧ handlers api' = <[Subscribe_channelKey s := cb]> (handlers api)
     ∧ postHandlers api' = postHandlers api).
Proof.
  intros H. split; [unfold Unsubscribe, IsConnected; by rewrite H|].
  split; [unfold sendMessage; by rewrite H|].
  cbv zeta. rewrite Subscribe_dialled by done.
  unfold sendMessage, Connect. rewrite H. simpl.
  by destruct write_r.
Qed.

Lemma only_Subscribe_and_Post_reconnect_witness :
  let s := {| Type_ := "trades"; User := ""; Coin := "BTC"; Interval := "";
              NSigFigs := 0; Mantissa := 0; AggregateByTime := false; Dex := "" |} in
  let api := readLoop_exit
    (Subscribe (DialOk 7%nat) None s 4%nat (NewWebSocketAPI "m" "t" true)).1 in
  Unsubscribe None s api = (api, Some "not connected")
  ∧ sendMessage CloseMessage None None api = (api, Some "not connected")
  ∧ (let api' := (Subscribe (DialOk 8%nat) None s 5%nat api).1 in
     connected api' = true ∧ conn api' = Some 8%nat ∧ done_closed api' = false
     ∧ readers api' = S (readers api)
     ∧ handlers api' = <[Subscribe_channelKey s := 5%nat]> (handlers api)
     ∧ postHandlers api' = postHandlers api).
Proof.
  intros s api.
  apply (only_Subscribe_and_Post_reconnect 8%nat None s 5%nat CloseMessage None api).
  reflexivity.
Defined.
